(** * Scribble: the room registry, the game model and the socket controller

    A shallow embedding of the backend of the drawing-and-guessing game:
    [models/Room.js], [models/Game.js] and
    [controllers/socketController.js].

    - The two module-level [Map]s ([Room.rooms], [Game.games]) are finite
      maps keyed by room id; the objects stored in them are mutated in
      place by the JavaScript, so every read after a call re-reads the map.
    - Numbers are integers ([Z]); the only non-integer computation, the
      time bonus, is carried out over [Q] and floored.  The engine computes
      in doubles: statements about amounts carry the bounds within which
      both agree.
    - Strings are sequences of code units below 256 (the Latin-1 part of
      UTF-16), one [ascii] per code unit; the empty string stands for any
      falsy payload field ([undefined], [null], [""]).
    - [Date.now()], [uuidv4()] and [Math.random()] are read from an explicit
      environment record handed to each handler.
    - An uncaught [TypeError] is the outcome [Thrown]; the mutations and
      emissions made before it are kept. *)

From Stdlib Require Import ZArith QArith Qround String Ascii List Sorted
  Lia.
From stdpp Require Import gmap strings list fin_maps.

Open Scope string_scope.
Open Scope Z_scope.

(** ** JavaScript string helpers *)

Module JsString.

(** [c.toLowerCase()] on one code unit below 256: the capitals A to Z
    (65 to 90) and the accented capitals U+00C0 to U+00DE (192 to 222)
    without the multiplication sign U+00D7 (215) are moved up by 32. *)
Definition lowerUnit (c : ascii) : ascii :=
  let n := nat_of_ascii c in
  if ((65 <=? n) && (n <=? 90)
      || (192 <=? n) && (n <=? 222) && negb (n =? 215))%nat
  then ascii_of_nat (n + 32) else c.

(** [s.toLowerCase()] *)
Fixpoint toLowerCase (s : string) : string :=
  match s with
  | EmptyString => EmptyString
  | String c r => String (lowerUnit c) (toLowerCase r)
  end.

(** White space and line terminators removed by [trim], among the code
    units below 256: TAB, LF, VT, FF, CR (9 to 13), SPACE (32) and the
    no-break space U+00A0 (160). *)
Definition isSpace (c : ascii) : bool :=
  let n := nat_of_ascii c in
  ((9 <=? n) && (n <=? 13) || (n =? 32) || (n =? 160))%nat.

Fixpoint trimStart (s : string) : string :=
  match s with
  | EmptyString => EmptyString
  | String c r => if isSpace c then trimStart r else s
  end.

Definition trimEnd (s : string) : string :=
  String.rev (trimStart (String.rev s)).

(** [s.trim()] *)
Definition trim (s : string) : string := trimEnd (trimStart s).

(** [s.split('')] *)
Definition chars (s : string) : list ascii := list_ascii_of_string s.

(** [l.join(' ')] for a list of one-character strings. *)
Fixpoint joinSpace (l : list ascii) : string :=
  match l with
  | [] => EmptyString
  | [c] => String c EmptyString
  | c :: r => String c (String " "%char (joinSpace r))
  end.

(** JavaScript truthiness of a string-valued payload field. *)
Definition truthy (s : string) : bool := negb (s =? "")%string.

End JsString.

(** ** Outcome of a call that may throw *)

Inductive Outcome (A : Type) : Type :=
| Returned (a : A)
| Thrown (what : string).
Arguments Returned {A} a.
Arguments Thrown {A} what.

(** ** Data model *)

(** [{ id, username, color }], the user record built by the controller. *)
Record User : Type := mkUser {
  user_id : string;
  user_username : string;
  user_color : string
}.

(** [{ type, points, color, lineWidth }] sent by a client. *)
Record DrawingData : Type := mkDrawingData {
  dd_type : string;
  dd_points : list (Z * Z);
  dd_color : string;
  dd_lineWidth : Z
}.

(** [{ type, data, userId, timestamp }] stored in the drawing log. *)
Record DrawingEvent : Type := mkDrawingEvent {
  de_type : string;
  de_data : DrawingData;
  de_userId : string;
  de_timestamp : Z
}.

(** [{ id, name, users, drawingData, createdAt }] *)
Record RoomRec : Type := mkRoom {
  room_id : string;
  room_name : string;
  room_users : list User;
  room_drawingData : list DrawingEvent;
  room_createdAt : Z
}.

(** ** models/Room.js *)

Module Room.

(** [this.rooms] *)
Abbreviation Rooms := (gmap string RoomRec).

Definition hasId (userId : string) (u : User) : bool :=
  (user_id u =? userId)%string.

(** [createRoom(roomName)]; [roomId] is the value of [uuidv4()], [now] the
    creation date. *)
Definition createRoom (roomId roomName : string) (now : Z) (rooms : Rooms)
  : RoomRec * Rooms :=
  let room := mkRoom roomId roomName [] [] now in
  (room, <[roomId := room]> rooms).

(** [getRoom(roomId)] *)
Definition getRoom (roomId : string) (rooms : Rooms) : option RoomRec :=
  rooms !! roomId.

(** [addUser(roomId, user)]: an unconditional [push]. *)
Definition addUser (roomId : string) (user : User) (rooms : Rooms)
  : bool * Rooms :=
  match rooms !! roomId with
  | None => (false, rooms)
  | Some room =>
      let room' := mkRoom (room_id room) (room_name room)
                     (room_users room ++ [user])
                     (room_drawingData room) (room_createdAt room) in
      (true, <[roomId := room']> rooms)
  end.

(** [users.splice(userIndex, 1)] at the first index where [findIndex]
    succeeds. *)
Fixpoint removeFirst (userId : string) (us : list User) : list User :=
  match us with
  | [] => []
  | u :: r => if hasId userId u then r else u :: removeFirst userId r
  end.

(** [removeUser(roomId, userId)] *)
Definition removeUser (roomId userId : string) (rooms : Rooms)
  : option User * Rooms :=
  match rooms !! roomId with
  | None => (None, rooms)
  | Some room =>
      match List.find (hasId userId) (room_users room) with
      | None => (None, rooms)
      | Some removedUser =>
          let users' := removeFirst userId (room_users room) in
          if (length users' =? 0)%nat
          then (Some removedUser, delete roomId rooms)
          else
            let room' := mkRoom (room_id room) (room_name room) users'
                           (room_drawingData room) (room_createdAt room) in
            (Some removedUser, <[roomId := room']> rooms)
      end
  end.

(** [addDrawingData(roomId, drawingEvent)] *)
Definition addDrawingData (roomId : string) (ev : DrawingEvent)
  (rooms : Rooms) : bool * Rooms :=
  match rooms !! roomId with
  | None => (false, rooms)
  | Some room =>
      let room' := mkRoom (room_id room) (room_name room) (room_users room)
                     (room_drawingData room ++ [ev]) (room_createdAt room) in
      (true, <[roomId := room']> rooms)
  end.

(** [getDrawingData(roomId)] *)
Definition getDrawingData (roomId : string) (rooms : Rooms)
  : list DrawingEvent :=
  match rooms !! roomId with
  | Some room => room_drawingData room
  | None => []
  end.

(** [clearDrawingData(roomId)] *)
Definition clearDrawingData (roomId : string) (rooms : Rooms)
  : bool * Rooms :=
  match rooms !! roomId with
  | None => (false, rooms)
  | Some room =>
      let room' := mkRoom (room_id room) (room_name room) (room_users room)
                     [] (room_createdAt room) in
      (true, <[roomId := room']> rooms)
  end.

(** [getAllRooms()]: a snapshot of the stored rooms.  A [Map] lists them
    in insertion order, the finite map in key order; the rooms are handled
    independently of each other, so only the order of emissions made for
    different rooms depends on it. *)
Definition getAllRooms (rooms : Rooms) : list RoomRec :=
  (map_to_list rooms).*2.

(** [getUser(roomId, userId)] *)
Definition getUser (roomId userId : string) (rooms : Rooms) : option User :=
  match rooms !! roomId with
  | None => None
  | Some room => List.find (hasId userId) (room_users room)
  end.

End Room.

(** ** models/Game.js *)

(** A player entry [{ id, username, score, hasGuessed }]. *)
Record Player : Type := mkPlayer {
  player_id : string;
  player_username : string;
  score : Z;
  hasGuessed : bool
}.

(** The [settings] object of [start-game]; a missing field is [None]. *)
Record Settings : Type := mkSettings {
  settings_rounds : option Z;
  settings_drawTime : option Z
}.

(** The game state stored per room.  The field [timer] of the source is
    initialised to [null] and never assigned, so it is left out. *)
Record GameState : Type := mkGame {
  roomId : string;
  rounds : Z;
  currentRound : Z;
  drawTime : Z;
  isActive : bool;
  isRoundActive : bool;
  currentDrawer : option string;
  currentWord : option string;
  wordOptions : list string;
  players : list Player;
  guessedPlayers : list string;
  roundStartTime : option Z;
  usedWords : list string;
  settings : Settings
}.

(** [{ id, username, score }] as sent in score tables. *)
Record ScoreEntry : Type := mkScoreEntry {
  se_id : string;
  se_username : string;
  se_score : Z
}.

(** Return value of [startRound]. *)
Record RoundData : Type := mkRoundData {
  rd_drawer : Player;
  rd_wordOptions : list string;
  rd_round : Z;
  rd_totalRounds : Z
}.

(** Return value of [processGuess]; the last three fields are absent from
    the object returned for a guess that is not correct. *)
Record GuessResult : Type := mkGuessResult {
  correct : bool;
  points : Z;
  player : option Player;
  allGuessed : option bool;
  isFirst : option bool;
  guessOrder : option Z
}.

(** Return value of [endRound]. *)
Record RoundResult : Type := mkRoundResult {
  rr_word : option string;
  rr_scores : list ScoreEntry
}.

(** Return value of [endGame]; [winner] is [undefined] without players. *)
Record GameResult : Type := mkGameResult {
  gr_winner : option Player;
  gr_scores : list ScoreEntry
}.

Module Game.

(** [this.games] *)
Abbreviation Games := (gmap string GameState).

(** *** Field updates of the mutable game object *)

Definition set_currentRound (g : GameState) (v : Z) : GameState :=
  mkGame (roomId g) (rounds g) v (drawTime g) (isActive g) (isRoundActive g)
    (currentDrawer g) (currentWord g) (wordOptions g) (players g)
    (guessedPlayers g) (roundStartTime g) (usedWords g) (settings g).

Definition set_isActive (g : GameState) (v : bool) : GameState :=
  mkGame (roomId g) (rounds g) (currentRound g) (drawTime g) v
    (isRoundActive g) (currentDrawer g) (currentWord g) (wordOptions g)
    (players g) (guessedPlayers g) (roundStartTime g) (usedWords g)
    (settings g).

Definition set_isRoundActive (g : GameState) (v : bool) : GameState :=
  mkGame (roomId g) (rounds g) (currentRound g) (drawTime g) (isActive g) v
    (currentDrawer g) (currentWord g) (wordOptions g) (players g)
    (guessedPlayers g) (roundStartTime g) (usedWords g) (settings g).

Definition set_currentDrawer (g : GameState) (v : option string)
  : GameState :=
  mkGame (roomId g) (rounds g) (currentRound g) (drawTime g) (isActive g)
    (isRoundActive g) v (currentWord g) (wordOptions g) (players g)
    (guessedPlayers g) (roundStartTime g) (usedWords g) (settings g).

Definition set_currentWord (g : GameState) (v : option string)
  : GameState :=
  mkGame (roomId g) (rounds g) (currentRound g) (drawTime g) (isActive g)
    (isRoundActive g) (currentDrawer g) v (wordOptions g) (players g)
    (guessedPlayers g) (roundStartTime g) (usedWords g) (settings g).

Definition set_wordOptions (g : GameState) (v : list string) : GameState :=
  mkGame (roomId g) (rounds g) (currentRound g) (drawTime g) (isActive g)
    (isRoundActive g) (currentDrawer g) (currentWord g) v (players g)
    (guessedPlayers g) (roundStartTime g) (usedWords g) (settings g).

Definition set_players (g : GameState) (v : list Player) : GameState :=
  mkGame (roomId g) (rounds g) (currentRound g) (drawTime g) (isActive g)
    (isRoundActive g) (currentDrawer g) (currentWord g) (wordOptions g) v
    (guessedPlayers g) (roundStartTime g) (usedWords g) (settings g).

Definition set_guessedPlayers (g : GameState) (v : list string)
  : GameState :=
  mkGame (roomId g) (rounds g) (currentRound g) (drawTime g) (isActive g)
    (isRoundActive g) (currentDrawer g) (currentWord g) (wordOptions g)
    (players g) v (roundStartTime g) (usedWords g) (settings g).

Definition set_roundStartTime (g : GameState) (v : option Z) : GameState :=
  mkGame (roomId g) (rounds g) (currentRound g) (drawTime g) (isActive g)
    (isRoundActive g) (currentDrawer g) (currentWord g) (wordOptions g)
    (players g) (guessedPlayers g) v (usedWords g) (settings g).

Definition set_usedWords (g : GameState) (v : list string) : GameState :=
  mkGame (roomId g) (rounds g) (currentRound g) (drawTime g) (isActive g)
    (isRoundActive g) (currentDrawer g) (currentWord g) (wordOptions g)
    (players g) (guessedPlayers g) (roundStartTime g) v (settings g).

(** *** Small JavaScript idioms *)

(** [x || d] for a number-or-undefined [x]: [undefined] and [0] are
    falsy. *)
Definition orDefault (x : option Z) (d : Z) : Z :=
  match x with
  | Some v => if v =? 0 then d else v
  | None => d
  end.

(** [p.id === playerId] *)
Definition hasId (playerId : string) (p : Player) : bool :=
  (player_id p =? playerId)%string.

(** [game.currentDrawer === id] *)
Definition isDrawer (g : GameState) (id : string) : bool :=
  match currentDrawer g with
  | Some d => (d =? id)%string
  | None => false
  end.

(** [l.includes(w)] *)
Definition includes (w : string) (l : list string) : bool :=
  existsb (String.eqb w) l.

(** Mutation of the first object of the array found by [find]. *)
Fixpoint updateFirst (playerId : string) (f : Player -> Player)
  (ps : list Player) : list Player :=
  match ps with
  | [] => []
  | p :: r =>
      if hasId playerId p then f p :: r
      else p :: updateFirst playerId f r
  end.

(** [players.splice(playerIndex, 1)] at the first matching index. *)
Fixpoint removeFirst (playerId : string) (ps : list Player) : list Player :=
  match ps with
  | [] => []
  | p :: r => if hasId playerId p then r else p :: removeFirst playerId r
  end.

Definition scoreEntry (p : Player) : ScoreEntry :=
  mkScoreEntry (player_id p) (player_username p) (score p).

(** [[...players].sort((a, b) => b.score - a.score)]: the sort of the
    engine is stable, so ties keep their order.  Players are inserted from
    the last to the first, each in front of the entries that do not beat
    it. *)
Fixpoint insertByScore (p : Player) (sorted : list Player) : list Player :=
  match sorted with
  | [] => [p]
  | q :: r =>
      if score q <=? score p then p :: sorted
      else q :: insertByScore p r
  end.

Definition sortByScore (ps : list Player) : list Player :=
  fold_right insertByScore [] ps.

(** *** The word bank *)

Definition allWords : list string :=
  [ "apple"; "banana"; "cat"; "dog"; "house"; "tree"; "car"; "sun";
    "moon"; "star"; "flower"; "book"; "phone"; "chair"; "table"; "cup";
    "elephant"; "guitar"; "mountain"; "rainbow"; "butterfly"; "umbrella";
    "camera"; "bicycle"; "pizza"; "rocket"; "castle"; "diamond";
    "telescope"; "helicopter"; "saxophone"; "lighthouse"; "penguin";
    "kangaroo"; "watermelon"; "pineapple"; "dinosaur"; "computer";
    "football"; "basketball"; "baseball"; "tennis"; "swimming";
    "dragon"; "unicorn"; "mermaid"; "wizard"; "pirate";
    "crown"; "sword"; "shield"; "treasure"; "bridge" ].

(** [generateWordOptions(usedWords)]; [shuffle] is the outcome of
    [sort(() => Math.random() - 0.5)] on the available words. *)
Definition generateWordOptions (shuffle : list string -> list string)
  (used : list string) : list string :=
  let availableWords :=
    List.filter (fun w => negb (includes w used)) allWords in
  let shuffled := shuffle availableWords in
  take 3 shuffled.

(** [getMaskedWord(word)] *)
Definition getMaskedWord (word : string) : string :=
  if negb (JsString.truthy word) then ""
  else JsString.joinSpace (map (fun _ => "_"%char) (JsString.chars word)).

(** The [while] loop of [getHint]: each element of [draws] is one value
    of [Math.floor(Math.random() * word.length)]; the loop leaves as soon
    as enough indices are collected.  The controller asks for one index,
    which the first draw provides. *)
Fixpoint pickIndices (len revealCount : nat) (draws : list nat)
  (indices : list nat) : list nat :=
  if ((length indices <? revealCount) && (length indices <? len))%nat then
    match draws with
    | [] => indices
    | randomIndex :: rest =>
        if existsb (Nat.eqb randomIndex) indices
        then pickIndices len revealCount rest indices
        else pickIndices len revealCount rest (indices ++ [randomIndex])
    end
  else indices.

(** [getHint(word, revealCount)] *)
Definition getHint (word : string) (revealCount : nat) (draws : list nat)
  : string :=
  if negb (JsString.truthy word) then ""
  else
    let wordArray := JsString.chars word in
    let indices := pickIndices (length wordArray) revealCount draws [] in
    JsString.joinSpace
      (imap (fun i char =>
               if existsb (Nat.eqb i) indices then char else "_"%char)
            wordArray).

(** *** Registry operations *)

(** [createGame(roomId, settings = {})] *)
Definition createGame (rid : string) (s : option Settings) (games : Games)
  : GameState * Games :=
  let settings := default (mkSettings None None) s in
  let gameState :=
    mkGame rid (orDefault (settings_rounds settings) 3) 0
      (orDefault (settings_drawTime settings) 60)
      false false None None [] [] [] None [] settings in
  (gameState, <[rid := gameState]> games).

(** [getGame(roomId)] *)
Definition getGame (rid : string) (games : Games) : option GameState :=
  games !! rid.

(** [addPlayer(roomId, player)] *)
Definition addPlayer (rid : string) (user : User) (games : Games)
  : bool * Games :=
  match games !! rid with
  | None => (false, games)
  | Some game =>
      match List.find (hasId (user_id user)) (players game) with
      | Some _ => (true, games)
      | None =>
          let p := mkPlayer (user_id user) (user_username user) 0 false in
          (true, <[rid := set_players game (players game ++ [p])]> games)
      end
  end.

(** The body of [endRound] on the game object. *)
Definition endRoundOn (game : GameState) : RoundResult * GameState :=
  let word := currentWord game in
  let game1 := set_isRoundActive game false in
  let game2 := set_currentWord game1 None in
  let game3 := set_wordOptions game2 [] in
  (mkRoundResult word (map scoreEntry (players game3)), game3).

(** [endRound(roomId)] *)
Definition endRound (rid : string) (games : Games)
  : option RoundResult * Games :=
  match games !! rid with
  | None => (None, games)
  | Some game =>
      let '(res, game') := endRoundOn game in
      (Some res, <[rid := game']> games)
  end.

(** [removePlayer(roomId, playerId)] *)
Definition removePlayer (rid playerId : string) (games : Games)
  : option Player * Games :=
  match games !! rid with
  | None => (None, games)
  | Some game =>
      match List.find (hasId playerId) (players game) with
      | None => (None, games)
      | Some removedPlayer =>
          let game1 :=
            set_players game (removeFirst playerId (players game)) in
          let games1 := <[rid := game1]> games in
          if isDrawer game1 playerId && isRoundActive game1
          then (Some removedPlayer, snd (endRound rid games1))
          else (Some removedPlayer, games1)
      end
  end.

Definition resetPlayer (p : Player) : Player :=
  mkPlayer (player_id p) (player_username p) 0 false.

Definition resetGuessed (p : Player) : Player :=
  mkPlayer (player_id p) (player_username p) (score p) false.

(** [startGame(roomId)] *)
Definition startGame (rid : string) (games : Games) : bool * Games :=
  match games !! rid with
  | None => (false, games)
  | Some game =>
      if isActive game then (false, games)
      else
        let game1 := set_isActive game true in
        let game2 := set_currentRound game1 0 in
        let game3 := set_usedWords game2 [] in
        let game4 := set_players game3 (map resetPlayer (players game3)) in
        (true, <[rid := game4]> games)
  end.

(** [endGame(roomId)] *)
Definition endGame (rid : string) (games : Games)
  : option GameResult * Games :=
  match games !! rid with
  | None => (None, games)
  | Some game =>
      let game1 := set_isActive game false in
      let game2 := set_isRoundActive game1 false in
      let sortedPlayers := sortByScore (players game2) in
      (Some (mkGameResult (head sortedPlayers)
               (map scoreEntry sortedPlayers)),
       <[rid := game2]> games)
  end.

(** [game.players[(game.currentRound - 1) % game.players.length]];
    [None] is [undefined] (empty list: the index is [NaN]). *)
Definition drawerAt (game : GameState) : option Player :=
  let len := Z.of_nat (length (players game)) in
  if len =? 0 then None
  else
    let drawerIndex := Z.rem (currentRound game - 1) len in
    if drawerIndex <? 0 then None
    else nth_error (players game) (Z.to_nat drawerIndex).

(** [startRound(roomId)] *)
Definition startRound (shuffle : list string -> list string) (rid : string)
  (games : Games) : Outcome (option RoundData) * Games :=
  match games !! rid with
  | None => (Returned None, games)
  | Some game =>
      if negb (isActive game) then (Returned None, games)
      else
        let game1 := set_currentRound game (currentRound game + 1) in
        if rounds game1 <? currentRound game1
        then (Returned None, snd (endGame rid (<[rid := game1]> games)))
        else
          match drawerAt game1 with
          | None =>
              (Thrown "TypeError: drawer is undefined",
               <[rid := game1]> games)
          | Some drawer =>
              let game2 :=
                set_currentDrawer game1 (Some (player_id drawer)) in
              let game3 :=
                set_wordOptions game2
                  (generateWordOptions shuffle (usedWords game2)) in
              let game4 := set_currentWord game3 None in
              let game5 := set_guessedPlayers game4 [] in
              let game6 :=
                set_players game5 (map resetGuessed (players game5)) in
              let game7 := set_isRoundActive game6 false in
              (Returned (Some (mkRoundData (resetGuessed drawer)
                                 (wordOptions game7) (currentRound game7)
                                 (rounds game7))),
               <[rid := game7]> games)
          end
  end.

(** [selectWord(roomId, word)]; [now] is [Date.now()]. *)
Definition selectWord (rid word : string) (now : Z) (games : Games)
  : bool * Games :=
  match games !! rid with
  | None => (false, games)
  | Some game =>
      if negb (includes word (wordOptions game)) then (false, games)
      else
        let game1 := set_currentWord game (Some word) in
        let game2 := set_usedWords game1 (usedWords game1 ++ [word]) in
        let game3 := set_isRoundActive game2 true in
        let game4 := set_roundStartTime game3 (Some now) in
        (true, <[rid := game4]> games)
  end.

(** The result object of a guess that is not accepted. *)
Definition noGuess : GuessResult :=
  mkGuessResult false 0 None None None None.

(** [!game.currentWord] *)
Definition noWord (g : GameState) : bool :=
  match currentWord g with
  | None => true
  | Some w => negb (JsString.truthy w)
  end.

(** The [if]/[else if] chain on [guessOrder]. *)
Definition basePoints (guessOrder : Z) : Z :=
  if guessOrder =? 1 then 100
  else if guessOrder =? 2 then 75
  else if guessOrder =? 3 then 50
  else 25.

(** [(Date.now() - game.roundStartTime) / 1000]; a [null] start time
    counts as [0].  Timestamps are whole milliseconds and [drawTime] a whole
    number of seconds, so [(drawTime - timeElapsed) / 2] is a multiple of
    1/2000: either an integer, which the floating-point computation yields
    exactly, or at least 1/2000 away from one.  As long as the rounding
    error of the doubles stays below that (timestamps below 2^53, at most
    2^40 ms elapsed, a draw time of at most 2^31 s), the floor taken over
    [Q] is the floor the engine takes; beyond, the two can differ by one. *)
Definition timeElapsed (now : Z) (g : GameState) : Q :=
  (inject_Z (now - default 0%Z (roundStartTime g))%Z / inject_Z 1000)%Q.

(** [Math.max(0, Math.floor((game.drawTime - timeElapsed) / 2))] *)
Definition timeBonus (now : Z) (g : GameState) : Z :=
  Z.max 0
    (Qfloor ((inject_Z (drawTime g) - timeElapsed now g) / inject_Z 2)%Q).

Definition markGuessed (p : Player) : Player :=
  mkPlayer (player_id p) (player_username p) (score p) true.

Definition addScore (n : Z) (p : Player) : Player :=
  mkPlayer (player_id p) (player_username p) (score p + n) (hasGuessed p).

(** [drawer.score += 25] on the object found for [game.currentDrawer],
    when there is one. *)
Definition rewardDrawer (g : GameState) : GameState :=
  match currentDrawer g with
  | None => g
  | Some d =>
      match List.find (hasId d) (players g) with
      | None => g
      | Some _ => set_players g (updateFirst d (addScore 25) (players g))
      end
  end.

(** [processGuess(roomId, playerId, guess)]; [now] is [Date.now()]. *)
Definition processGuess (rid playerId guess : string) (now : Z)
  (games : Games) : GuessResult * Games :=
  match games !! rid with
  | None => (noGuess, games)
  | Some game =>
      if negb (isRoundActive game) || noWord game then (noGuess, games)
      else
        match List.find (hasId playerId) (players game) with
        | None => (noGuess, games)
        | Some player =>
            if hasGuessed player || isDrawer game playerId
            then (noGuess, games)
            else
              let isCorrect :=
                (JsString.trim (JsString.toLowerCase guess) =?
                 JsString.toLowerCase (default "" (currentWord game)))%string
              in
              if isCorrect then
                let game1 :=
                  set_players game
                    (updateFirst playerId markGuessed (players game)) in
                let game2 :=
                  set_guessedPlayers game1
                    (guessedPlayers game1 ++ [playerId]) in
                let guessOrder :=
                  Z.of_nat (length (guessedPlayers game2)) in
                let points := basePoints guessOrder + timeBonus now game2 in
                let game3 :=
                  set_players game2
                    (updateFirst playerId (addScore points)
                       (players game2)) in
                let game4 := rewardDrawer game3 in
                let nonDrawerPlayers :=
                  List.filter
                    (fun p => negb (isDrawer game4 (player_id p)))
                    (players game4) in
                let allGuessed := forallb hasGuessed nonDrawerPlayers in
                (mkGuessResult true points
                   (Some (addScore points (markGuessed player)))
                   (Some allGuessed) (Some (guessOrder =? 1))
                   (Some guessOrder),
                 <[rid := game4]> games)
              else (noGuess, games)
        end
  end.

(** Modelled from the spec: [getLeaderboard] is called by the controller
    and listed among the key methods of the game model, but its body is
    not part of the available sources; the specification has it return
    the players sorted by score, highest first, each as
    [{ id, username, score }]. *)
Definition getLeaderboard (rid : string) (games : Games)
  : list ScoreEntry :=
  match games !! rid with
  | None => []
  | Some game => map scoreEntry (sortByScore (players game))
  end.

(** [deleteGame(roomId)] *)
Definition deleteGame (rid : string) (games : Games) : Games :=
  delete rid games.

End Game.

(** ** The transport and the handler monad *)

(** What a handler reads from the outside world during one run. *)
Record Env : Type := mkEnv {
  now : Z;                                   (* Date.now() *)
  uuid : string;                             (* uuidv4() *)
  colorIndex : nat;                          (* Math.floor(Math.random() * 12) *)
  shuffle : list string -> list string;      (* the random sort of the word bank *)
  draws : list nat                           (* random indices drawn by getHint *)
}.

(** The [gameState] object of [room-joined]. *)
Record GameSnapshot : Type := mkGameSnapshot {
  gs_isActive : bool;
  gs_isRoundActive : bool;
  gs_currentRound : Z;
  gs_totalRounds : Z;
  gs_currentDrawer : option string;
  gs_players : list Player
}.

(** Server-to-client events with their payloads. *)
Inductive Payload : Type :=
| PError (error : string)
| PRoomCreated (rid roomName : string) (user : User)
| PRoomJoined (rid roomName : string) (user : User) (users : list User)
    (drawingData : list DrawingEvent) (gameState : GameSnapshot)
| PUserJoined (user : User)
| PUserLeft (user : User)
| PDrawing (drawingData : DrawingData) (userId : string)
| PCanvasCleared
| PChatMessage (user : User) (message : string) (timestamp : Z)
    (isGuess : bool)
| PCorrectGuess (player : option Player) (points : Z) (word : option string)
| PLeaderboardUpdate (leaderboard : list ScoreEntry)
| PGameStarted (rounds drawTime : Z)
| PRoundStartedDrawer (drawer : Player) (wordOptions : list string)
    (round totalRounds : Z)
| PRoundStartedGuesser (drawer : Player) (round totalRounds : Z)
| PWordSelected (word : string)
| PWordSelectedMasked (maskedWord : string) (wordLength : Z)
| PHintRevealed (hint : string)
| PRoundEnded (result : RoundResult)
| PGameEnded (result : option GameResult).

(** [socket.emit(...)] and [socket.to(room).emit(...)]. *)
Inductive Target : Type :=
| ToSocket (sid : string)
| ToOthers (room sender : string).

(** The callbacks handed to [setTimeout]; each keeps the socket of the
    handler that scheduled it. *)
Inductive TimerAction : Type :=
| TEndRound (sid rid : string)
| TEndRoundIfActive (sid rid : string)
| TStartRound (sid rid : string)
| TEndGame (sid rid : string).

(** What a handler does to the outside world; an emission records the
    sockets it is delivered to at the moment it is made. *)
Inductive Effect : Type :=
| Emit (t : Target) (p : Payload) (receivers : list string)
| SetTimeout (a : TimerAction) (ms : Z).

(** The server state: the two registries and the rooms of the transport
    adapter (every connected socket is also alone in the room named by its
    own id). *)
Record World : Type := mkWorld {
  rooms : gmap string RoomRec;
  games : gmap string GameState;
  adapter : gmap string (gset string)
}.

Definition emptyWorld : World := mkWorld ∅ ∅ ∅.

Definition members (a : gmap string (gset string)) (room : string)
  : gset string :=
  default ∅ (a !! room).

(** The sockets an emission reaches: [socket.emit] reaches the socket while
    it is connected, [socket.to(room).emit] every socket of the room but the
    sender. *)
Definition recipients (a : gmap string (gset string)) (t : Target)
  : list string :=
  match t with
  | ToSocket sid => if decide (sid ∈ members a sid) then [sid] else []
  | ToOthers room sender => elements (members a room ∖ {[sender]})
  end.

(** Handlers: state passing over [World], a log of effects, and the
    possibility of an uncaught exception. *)
Definition M (A : Type) : Type := World -> Outcome A * World * list Effect.

#[export] Instance M_ret : MRet M :=
  fun A (a : A) (w : World) => (Returned a, w, []).

#[export] Instance M_bind : MBind M :=
  fun A B (f : A -> M B) (m : M A) (w : World) =>
    match m w with
    | (Returned a, w1, e1) =>
        match f a w1 with
        | (o, w2, e2) => (o, w2, (e1 ++ e2)%list)
        end
    | (Thrown what, w1, e1) => (Thrown what, w1, e1)
    end.

Definition skip : M unit := mret tt.

Definition emit (t : Target) (p : Payload) : M unit :=
  fun w => (Returned tt, w, [Emit t p (recipients (adapter w) t)]).

Definition setTimeout (a : TimerAction) (ms : Z) : M unit :=
  fun w => (Returned tt, w, [SetTimeout a ms]).

Definition liftRoom {A} (f : gmap string RoomRec -> A * gmap string RoomRec)
  : M A :=
  fun w =>
    let '(a, r) := f (rooms w) in
    (Returned a, mkWorld r (games w) (adapter w), []).

Definition liftGame {A}
  (f : gmap string GameState -> A * gmap string GameState) : M A :=
  fun w =>
    let '(a, g) := f (games w) in
    (Returned a, mkWorld (rooms w) g (adapter w), []).

Definition liftGameThrowing {A}
  (f : gmap string GameState -> Outcome A * gmap string GameState) : M A :=
  fun w =>
    let '(o, g) := f (games w) in
    (o, mkWorld (rooms w) g (adapter w), []).

Definition readRooms {A} (f : gmap string RoomRec -> A) : M A :=
  fun w => (Returned (f (rooms w)), w, []).

Definition readGames {A} (f : gmap string GameState -> A) : M A :=
  fun w => (Returned (f (games w)), w, []).

(** [socket.join(room)] *)
Definition join (sid room : string) : M unit :=
  fun w =>
    (Returned tt,
     mkWorld (rooms w) (games w)
       (<[room := {[sid]} ∪ members (adapter w) room]> (adapter w)),
     []).

(** The transport drops a closing socket from every room before the
    [disconnect] listeners run. *)
Definition leaveAll (sid : string) : M unit :=
  fun w =>
    (Returned tt,
     mkWorld (rooms w) (games w) ((fun s => s ∖ {[sid]}) <$> adapter w),
     []).

(** [list.forEach(f)] *)
Fixpoint forEach {A} (l : list A) (f : A -> M unit) : M unit :=
  match l with
  | [] => skip
  | x :: r => f x ;; forEach r f
  end.

(** The state and the effects of a run. *)
Definition worldOf {A} (r : Outcome A * World * list Effect) : World :=
  snd (fst r).

Definition effectsOf {A} (r : Outcome A * World * list Effect)
  : list Effect :=
  snd r.

(** ** controllers/socketController.js *)

Module SocketController.

Import JsString.

Definition colors : list string :=
  [ "#FF6B6B"; "#4ECDC4"; "#45B7D1"; "#FFA07A";
    "#98D8C8"; "#F7DC6F"; "#BB8FCE"; "#85C1E2";
    "#F8B739"; "#52B788"; "#E63946"; "#457B9D" ].

(** [generateRandomColor()] *)
Definition generateRandomColor (env : Env) : string :=
  nth (colorIndex env mod length colors) colors "#FF6B6B".

(** [getUserFromSocket(socket, roomId)] *)
Definition getUserFromSocket (sid rid : string) : M (option User) :=
  readRooms (Room.getUser rid sid).

(** [game && game.isRoundActive && socket.id !== game.currentDrawer] *)
Definition guessing (game : option GameState) (sid : string) : bool :=
  match game with
  | None => false
  | Some g => isRoundActive g && negb (Game.isDrawer g sid)
  end.

Definition snapshot (g : GameState) : GameSnapshot :=
  mkGameSnapshot (isActive g) (isRoundActive g) (currentRound g) (rounds g)
    (currentDrawer g) (players g).

(** [handleCreateRoom(socket, { roomName, username })] *)
Definition handleCreateRoom (env : Env) (sid roomName username : string)
  : M unit :=
  if negb (truthy roomName) || negb (truthy username) then
    emit (ToSocket sid) (PError "Room name and username are required")
  else
    room ← liftRoom (Room.createRoom (uuid env) roomName (now env));
    let user := mkUser sid username (generateRandomColor env) in
    liftRoom (Room.addUser (room_id room) user) ;;
    join sid (room_id room) ;;
    liftGame (Game.createGame (room_id room) None) ;;
    liftGame (Game.addPlayer (room_id room) user) ;;
    emit (ToSocket sid) (PRoomCreated (room_id room) (room_name room) user).

(** [handleJoinRoom(socket, { roomId, username })] *)
Definition handleJoinRoom (env : Env) (sid rid username : string)
  : M unit :=
  if negb (truthy rid) || negb (truthy username) then
    emit (ToSocket sid) (PError "Room ID and username are required")
  else
    found ← readRooms (Room.getRoom rid);
    match found with
    | None => emit (ToSocket sid) (PError "Room not found")
    | Some room0 =>
        let user := mkUser sid username (generateRandomColor env) in
        liftRoom (Room.addUser rid user) ;;
        join sid rid ;;
        existing ← readGames (Game.getGame rid);
        match existing with
        | Some _ => skip
        | None => liftGame (Game.createGame rid None) ;; skip
        end ;;
        liftGame (Game.addPlayer rid user) ;;
        drawingData ← readRooms (Room.getDrawingData rid);
        room ← readRooms (fun r => default room0 (Room.getRoom rid r));
        game ← readGames (Game.getGame rid);
        match game with
        | None => skip
        | Some g =>
            emit (ToSocket sid)
              (PRoomJoined (room_id room) (room_name room) user
                 (room_users room) drawingData (snapshot g)) ;;
            emit (ToOthers rid sid) (PUserJoined user)
        end
    end.

(** [handleDrawing(socket, { roomId, drawingData })] *)
Definition handleDrawing (env : Env) (sid rid : string)
  (drawingData : option DrawingData) : M unit :=
  match drawingData with
  | None => skip
  | Some dd =>
      if negb (truthy rid) then skip
      else
        found ← readRooms (Room.getRoom rid);
        match found with
        | None => skip
        | Some _ =>
            game ← readGames (Game.getGame rid);
            if guessing game sid then skip
            else
              let drawingEvent :=
                mkDrawingEvent (dd_type dd) dd sid (now env) in
              liftRoom (Room.addDrawingData rid drawingEvent) ;;
              emit (ToOthers rid sid) (PDrawing dd sid)
        end
  end.

(** The pair [socket.to(roomId).emit(e); socket.emit(e)]. *)
Definition emitAll (sid rid : string) (p : Payload) : M unit :=
  emit (ToOthers rid sid) p ;; emit (ToSocket sid) p.

(** [handleClearCanvas(socket, { roomId })] *)
Definition handleClearCanvas (sid rid : string) : M unit :=
  if negb (truthy rid) then skip
  else
    found ← readRooms (Room.getRoom rid);
    match found with
    | None => skip
    | Some _ =>
        liftRoom (Room.clearDrawingData rid) ;;
        emitAll sid rid PCanvasCleared
    end.

(** The tail of [handleChatMessage]: the regular chat message. *)
Definition regularChat (env : Env) (sid rid : string) (user : User)
  (message : string) : M unit :=
  game ← readGames (Game.getGame rid);
  emitAll sid rid (PChatMessage user message (now env) (guessing game sid)).

(** [handleChatMessage(socket, { roomId, message })] *)
Definition handleChatMessage (env : Env) (sid rid message : string)
  : M unit :=
  if negb (truthy rid) || negb (truthy message) then skip
  else
    found ← getUserFromSocket sid rid;
    match found with
    | None => skip
    | Some user =>
        game ← readGames (Game.getGame rid);
        if guessing game sid then
          guessResult ← liftGame (Game.processGuess rid sid message (now env));
          if correct guessResult then
            emit (ToOthers rid sid)
              (PCorrectGuess (player guessResult) (points guessResult)
                 None) ;;
            game' ← readGames (Game.getGame rid);
            emit (ToSocket sid)
              (PCorrectGuess (player guessResult) (points guessResult)
                 (game' ≫= currentWord)) ;;
            leaderboard ← readGames (Game.getLeaderboard rid);
            emit (ToOthers rid sid) (PLeaderboardUpdate leaderboard) ;;
            emit (ToSocket sid) (PLeaderboardUpdate leaderboard) ;;
            if default false (allGuessed guessResult)
            then setTimeout (TEndRound sid rid) 2000
            else skip
          else regularChat env sid rid user message
        else regularChat env sid rid user message
    end.

(** [handleStartGame(socket, { roomId, settings })] *)
Definition handleStartGame (sid rid : string) (s : option Settings)
  : M unit :=
  if negb (truthy rid) then skip
  else
    existing ← readGames (Game.getGame rid);
    match existing with
    | Some _ => skip
    | None => liftGame (Game.createGame rid s) ;; skip
    end ;;
    started ← liftGame (Game.startGame rid);
    if negb started then skip
    else
      liftRoom (Room.clearDrawingData rid) ;;
      emitAll sid rid PCanvasCleared ;;
      game ← readGames (Game.getGame rid);
      match game with
      | None => skip
      | Some g =>
          emit (ToOthers rid sid) (PGameStarted (rounds g) (drawTime g)) ;;
          emit (ToSocket sid) (PGameStarted (rounds g) (drawTime g)) ;;
          setTimeout (TStartRound sid rid) 3000
      end.

(** [handleStartRound(socket, { roomId })] *)
Definition handleStartRound (env : Env) (sid rid : string) : M unit :=
  if negb (truthy rid) then skip
  else
    game ← readGames (Game.getGame rid);
    match game with
    | None => skip
    | Some _ =>
        roundData ← liftGameThrowing (Game.startRound (shuffle env) rid);
        match roundData with
        | None => skip
        | Some rd =>
            let drawer := rd_drawer rd in
            let toDrawer :=
              PRoundStartedDrawer drawer (rd_wordOptions rd) (rd_round rd)
                (rd_totalRounds rd) in
            let guessersData :=
              PRoundStartedGuesser drawer (rd_round rd)
                (rd_totalRounds rd) in
            liftRoom (Room.clearDrawingData rid) ;;
            emitAll sid rid PCanvasCleared ;;
            emit (ToOthers (player_id drawer) sid) toDrawer ;;
            (if (sid =? player_id drawer)%string
             then emit (ToSocket sid) toDrawer else skip) ;;
            emit (ToOthers rid sid) guessersData ;;
            (if negb (sid =? player_id drawer)%string
             then emit (ToSocket sid) guessersData else skip)
        end
    end.

(** [handleSelectWord(socket, { roomId, word })] *)
Definition handleSelectWord (env : Env) (sid rid word : string) : M unit :=
  if negb (truthy rid) || negb (truthy word) then skip
  else
    game ← readGames (Game.getGame rid);
    match game with
    | None => skip
    | Some g =>
        if negb (Game.isDrawer g sid) then skip
        else
          selected ← liftGame (Game.selectWord rid word (now env));
          if negb selected then skip
          else
            let maskedWord := Game.getMaskedWord word in
            emit (ToSocket sid) (PWordSelected word) ;;
            emit (ToOthers rid sid)
              (PWordSelectedMasked maskedWord
                 (Z.of_nat (String.length word))) ;;
            g' ← readGames (fun gs => default g (Game.getGame rid gs));
            setTimeout (TEndRoundIfActive sid rid) (drawTime g' * 1000)
    end.

(** [handleRequestHint(socket, { roomId })] *)
Definition handleRequestHint (env : Env) (sid rid : string) : M unit :=
  if negb (truthy rid) then skip
  else
    game ← readGames (Game.getGame rid);
    match game with
    | None => skip
    | Some g =>
        if negb (isRoundActive g) || Game.noWord g then skip
        else
          let hint :=
            Game.getHint (default "" (currentWord g)) 1 (draws env) in
          emit (ToOthers rid sid) (PHintRevealed hint) ;;
          if negb (Game.isDrawer g sid)
          then emit (ToSocket sid) (PHintRevealed hint)
          else skip
    end.

(** [handleEndRound(socket, { roomId })] *)
Definition handleEndRound (sid rid : string) : M unit :=
  if negb (truthy rid) then skip
  else
    game ← readGames (Game.getGame rid);
    match game with
    | None => skip
    | Some _ =>
        roundResult ← liftGame (Game.endRound rid);
        match roundResult with
        | None => skip
        | Some res =>
            emitAll sid rid (PRoundEnded res) ;;
            game' ← readGames (Game.getGame rid);
            match game' with
            | None => skip
            | Some g =>
                if rounds g <=? currentRound g
                then setTimeout (TEndGame sid rid) 5000
                else setTimeout (TStartRound sid rid) 5000
            end
        end
    end.

(** The body of the [forEach] of [handleDisconnect] for one room. *)
Definition leaveRoom (sid : string) (room : RoomRec) : M unit :=
  found ← readRooms (Room.getUser (room_id room) sid);
  match found with
  | None => skip
  | Some user =>
      liftRoom (Room.removeUser (room_id room) sid) ;;
      liftGame (Game.removePlayer (room_id room) sid) ;;
      emit (ToOthers (room_id room) sid) (PUserLeft user)
  end.

(** [handleDisconnect(socket)] *)
Definition handleDisconnect (sid : string) : M unit :=
  all ← readRooms Room.getAllRooms;
  forEach all (leaveRoom sid).

(** The callbacks scheduled with [setTimeout]. *)
Definition fire (env : Env) (a : TimerAction) : M unit :=
  match a with
  | TEndRound sid rid => handleEndRound sid rid
  | TEndRoundIfActive sid rid =>
      currentGame ← readGames (Game.getGame rid);
      match currentGame with
      | Some g => if isRoundActive g then handleEndRound sid rid else skip
      | None => skip
      end
  | TStartRound sid rid => handleStartRound env sid rid
  | TEndGame sid rid =>
      gameResult ← liftGame (Game.endGame rid);
      emitAll sid rid (PGameEnded gameResult)
  end.

(** Events sent by clients. *)
Inductive ClientEvent : Type :=
| CreateRoom (roomName username : string)
| JoinRoom (rid username : string)
| Drawing (rid : string) (drawingData : option DrawingData)
| ClearCanvas (rid : string)
| ChatMessage (rid message : string)
| StartGame (rid : string) (s : option Settings)
| StartRound (rid : string)
| SelectWord (rid word : string)
| RequestHint (rid : string)
| EndRound (rid : string).

(** The listeners installed by [handleConnection]. *)
Definition dispatch (env : Env) (sid : string) (ev : ClientEvent)
  : M unit :=
  match ev with
  | CreateRoom roomName username => handleCreateRoom env sid roomName username
  | JoinRoom rid username => handleJoinRoom env sid rid username
  | Drawing rid dd => handleDrawing env sid rid dd
  | ClearCanvas rid => handleClearCanvas sid rid
  | ChatMessage rid message => handleChatMessage env sid rid message
  | StartGame rid s => handleStartGame sid rid s
  | StartRound rid => handleStartRound env sid rid
  | SelectWord rid word => handleSelectWord env sid rid word
  | RequestHint rid => handleRequestHint env sid rid
  | EndRound rid => handleEndRound sid rid
  end.

(** Everything that makes the server run a piece of code. *)
Inductive Input : Type :=
| Connect (sid : string)
| FromClient (sid : string) (ev : ClientEvent)
| Disconnect (sid : string)
| Fire (a : TimerAction).

Definition step (env : Env) (i : Input) : M unit :=
  match i with
  | Connect sid => join sid sid
  | FromClient sid ev => dispatch env sid ev
  | Disconnect sid => leaveAll sid ;; handleDisconnect sid
  | Fire a => fire env a
  end.

(** A run of the server: one environment per input; an uncaught
    exception stops it. *)
Fixpoint run (inputs : list (Env * Input)) : M unit :=
  match inputs with
  | [] => skip
  | (env, i) :: rest => step env i ;; run rest
  end.

End SocketController.

(** * Vocabulary of the statements *)

(** The reasons for which a guess is not accepted. *)
Definition rejected (games : gmap string GameState)
  (rid playerId guess : string) : Prop :=
  match games !! rid with
  | None => True
  | Some g =>
      isRoundActive g = false
      \/ Game.noWord g = true
      \/ List.find (Game.hasId playerId) (players g) = None
      \/ Game.isDrawer g playerId = true
      \/ (exists p, List.find (Game.hasId playerId) (players g) = Some p
                    /\ hasGuessed p = true)
      \/ JsString.trim (JsString.toLowerCase guess)
         <> JsString.toLowerCase (default "" (currentWord g))
  end.

(** The score of a player of a game, when there is such a player. *)
Definition scoreOf (playerId : string) (g : GameState) : option Z :=
  score <$> List.find (Game.hasId playerId) (players g).

(** The scoring rule in the words of the specification: the base award by
    guess order (1, 2, 3, 4 or later) and the time bonus. *)
Definition specBase (order : nat) : Z :=
  match order with
  | 1%nat => 100
  | 2%nat => 75
  | 3%nat => 50
  | _ => 25
  end.

Definition specTimeBonus (drawTime : Z) (elapsedSeconds : Q) : Z :=
  Z.max 0 (Qfloor ((inject_Z drawTime - elapsedSeconds) / inject_Z 2)%Q).

(** ** Configuration of a game *)

(** The documented ranges of the two settings. *)
Definition validConfig (g : GameState) : Prop :=
  1 <= rounds g <= 10 /\ 30 <= drawTime g <= 180.

(** A setting that is absent (or falsy) or within its range. *)
Definition fieldOk (lo hi : Z) (x : option Z) : Prop :=
  match x with
  | None => True
  | Some v => v = 0 \/ lo <= v <= hi
  end.

Definition settingsOk (s : option Settings) : Prop :=
  match s with
  | None => True
  | Some s => fieldOk 1 10 (settings_rounds s)
              /\ fieldOk 30 180 (settings_drawTime s)
  end.

(** The settings carried by an input, when it is a [start-game]. *)
Definition inputSettingsOk (ok : option Settings -> Prop)
  (i : SocketController.Input) : Prop :=
  match i with
  | SocketController.FromClient _ (SocketController.StartGame _ s) => ok s
  | _ => True
  end.

(** A computation keeps a property of the game registry. *)
Definition preserves (P : gmap string GameState -> Prop) {A : Type}
  (m : M A) : Prop :=
  forall w, P (games w) -> P (games (worldOf (m w))).

(** ** Well-formed room registry *)

(** Every room is stored under its own id, as [createRoom] does. *)
Definition keyedById (rooms : gmap string RoomRec) : Prop :=
  forall k r, rooms !! k = Some r -> room_id r = k.

(** ** Operations on a running game *)

(** The calls the controller makes on the game of a room between its start
    and its end. *)
Inductive GameOp : Type :=
| OpAddPlayer (user : User)
| OpRemovePlayer (playerId : string)
| OpStartRound
| OpSelectWord (word : string) (now : Z)
| OpProcessGuess (playerId guess : string) (now : Z)
| OpEndRound
| OpEndGame.

Definition applyOp (sh : list string -> list string) (rid : string)
  (op : GameOp) (games : gmap string GameState) : gmap string GameState :=
  match op with
  | OpAddPlayer user => (Game.addPlayer rid user games).2
  | OpRemovePlayer playerId => (Game.removePlayer rid playerId games).2
  | OpStartRound => (Game.startRound sh rid games).2
  | OpSelectWord word now => (Game.selectWord rid word now games).2
  | OpProcessGuess playerId guess now =>
      (Game.processGuess rid playerId guess now games).2
  | OpEndRound => (Game.endRound rid games).2
  | OpEndGame => (Game.endGame rid games).2
  end.

Definition runOps (sh : list string -> list string) (rid : string)
  (ops : list GameOp) (games : gmap string GameState)
  : gmap string GameState :=
  fold_left (fun gs op => applyOp sh rid op gs) ops games.

(** One word appended per round at most: never more used words than rounds
    begun. *)
Definition oncePerRound (g : GameState) : Prop :=
  Z.of_nat (length (usedWords g)) <= currentRound g.

(** ** A session of three players *)

Module Scenario.

Import SocketController.

(** The identity shuffle and a first random index of [0]. *)
Definition envAt (t : Z) : Env :=
  mkEnv t "r1" 0 (fun l => l) [0%nat].

Definition dan : User := mkUser "d" "Dan" "#FF6B6B".
Definition ann : User := mkUser "a" "Ann" "#FF6B6B".
Definition bob : User := mkUser "b" "Bob" "#FF6B6B".

(** Dan creates the room. *)
Definition solo : list (Env * Input) :=
  [ (envAt 0, Connect "d");
    (envAt 0, FromClient "d" (CreateRoom "Room" "Dan")) ].

(** Ann and Bob join. *)
Definition lobby : list (Env * Input) :=
  (solo ++
   [ (envAt 1, Connect "a");
     (envAt 1, FromClient "a" (JoinRoom "r1" "Ann"));
     (envAt 2, Connect "b");
     (envAt 2, FromClient "b" (JoinRoom "r1" "Bob")) ])%list.

(** Dan starts the game; three seconds later the first round starts and
    Dan, the drawer, is offered three words. *)
Definition waiting : list (Env * Input) :=
  (lobby ++
   [ (envAt 3, FromClient "d" (StartGame "r1" None));
     (envAt 3003, Fire (TStartRound "d" "r1")) ])%list.

(** Dan picks the word. *)
Definition drawing : list (Env * Input) :=
  (waiting ++
   [ (envAt 10000, FromClient "d" (SelectWord "r1" "apple")) ])%list.

(** Ann guesses it ten seconds later. *)
Definition guessed : list (Env * Input) :=
  (drawing ++
   [ (envAt 20000, FromClient "a" (ChatMessage "r1" "Apple")) ])%list.

Definition after (inputs : list (Env * Input)) : World :=
  worldOf (run inputs emptyWorld).

(** The game once Dan has picked his word. *)
Definition drawingGame : GameState :=
  mkGame "r1" 3 1 60 true true (Some "d") (Some "apple")
    ["apple"; "banana"; "cat"]
    [ mkPlayer "d" "Dan" 0 false; mkPlayer "a" "Ann" 0 false;
      mkPlayer "b" "Bob" 0 false ]
    [] (Some 10000) ["apple"] (mkSettings None None).

(** The game while Dan is choosing. *)
Definition waitingGame : GameState :=
  mkGame "r1" 3 1 60 true false (Some "d") None
    ["apple"; "banana"; "cat"]
    [ mkPlayer "d" "Dan" 0 false; mkPlayer "a" "Ann" 0 false;
      mkPlayer "b" "Bob" 0 false ]
    [] None [] (mkSettings None None).

(** The game of the room in a world. *)
Definition gameOf (w : World) : option GameState := games w !! "r1".

End Scenario.

(** ** Vocabulary for emissions *)

(** Every effect of a computation satisfies [Q]. *)
Definition emitsOnly (Q : Effect -> Prop) {A : Type} (m : M A) : Prop :=
  forall w, Forall Q (effectsOf (m w)).

Definition isUserLeft (e : Effect) : Prop :=
  exists t user receivers, e = Emit t (PUserLeft user) receivers.


(** ** The game of a room *)

(** The game stored under a room id has the default configuration. *)
Definition defaultAt (rid : string) (games : gmap string GameState) : Prop :=
  exists g, games !! rid = Some g /\ rounds g = 3 /\ drawTime g = 60.

(** Every room of the registry has its game, with the default
    configuration. *)
Definition roomsHaveDefaults (w : World) : Prop :=
  forall rid, is_Some (rooms w !! rid) -> defaultAt rid (games w).

(** A computation keeps a property of the whole server state. *)
Definition keeps (I : World -> Prop) {A : Type} (m : M A) : Prop :=
  forall w, I w -> I (worldOf (m w)).

(** ** Where the settings of start-game are read *)

(** The game stored under [rid], if any, has its configuration within the
    ranges. *)
Definition validAt (rid : string) (games : gmap string GameState) : Prop :=
  forall g, games !! rid = Some g -> validConfig g.

(** A [start-game] for [rid] that finds no game stored under [rid] carries
    settings whose fields are absent, zero or within range. *)
Definition freshStartInRange (rid : string) (w : World)
  (i : SocketController.Input) : Prop :=
  match i with
  | SocketController.FromClient _ (SocketController.StartGame r s) =>
      r = rid -> games w !! rid = None -> settingsOk s
  | _ => True
  end.

(** [freshStartInRange] at every input of a run, each in the state the
    run has reached. *)
Fixpoint createdInRange (rid : string)
  (inputs : list (Env * SocketController.Input)) (w : World) : Prop :=
  match inputs with
  | [] => True
  | (env, i) :: rest =>
      freshStartInRange rid w i
      /\ createdInRange rid rest (worldOf (SocketController.step env i w))
  end.

(** ** controllers/roomController.js *)

(** An entry of the room list: [{ id, name, userCount, createdAt }]. *)
Record RoomSummary : Type := mkRoomSummary {
  rs_id : string;
  rs_name : string;
  rs_userCount : nat;
  rs_createdAt : Z
}.

(** The room of a detail reply:
    [{ id, name, users, userCount, createdAt }]. *)
Record RoomDetail : Type := mkRoomDetail {
  rdt_id : string;
  rdt_name : string;
  rdt_users : list User;
  rdt_userCount : nat;
  rdt_createdAt : Z
}.

(** The JSON bodies the REST controller sends. *)
Inductive Body : Type :=
| BRooms (success : bool) (rooms : list RoomSummary)
| BRoom (success : bool) (room : RoomDetail)
| BFailure (success : bool) (error : string)
| BExists (found : bool).

(** [res.status(code).json(body)]; [res.json(body)] alone answers 200. *)
Record Response : Type := mkResponse {
  status : Z;
  body : Body
}.

Module RoomController.

(** The [map] of [getAllRooms]. *)
Definition format (room : RoomRec) : RoomSummary :=
  mkRoomSummary (room_id room) (room_name room) (length (room_users room))
    (room_createdAt room).

(** [getAllRooms(req, res)]; the [catch] branch is never entered, the room
    model does not throw. *)
Definition getAllRooms (rooms : gmap string RoomRec) : Response :=
  let all := Room.getAllRooms rooms in
  let formattedRooms := map format all in
  mkResponse 200 (BRooms true formattedRooms).

(** [getRoomById(req, res)] with [req.params.roomId = rid]. *)
Definition getRoomById (rid : string) (rooms : gmap string RoomRec)
  : Response :=
  match Room.getRoom rid rooms with
  | None => mkResponse 404 (BFailure false "Room not found")
  | Some room =>
      mkResponse 200
        (BRoom true
           (mkRoomDetail (room_id room) (room_name room) (room_users room)
              (length (room_users room)) (room_createdAt room)))
  end.

(** [checkRoomExists(req, res)]: [{ exists: !!room }]. *)
Definition checkRoomExists (rid : string) (rooms : gmap string RoomRec)
  : Response :=
  let room := Room.getRoom rid rooms in
  mkResponse 200 (BExists (bool_decide (is_Some room))).

End RoomController.

(** ** Transitions of one game *)

(** The game object built by [createGame]. *)
Definition newGame (rid : string) (s : option Settings) : GameState :=
  (Game.createGame rid s ∅).1.

(** The game object after each mutation the model performs on it. *)
Definition addedPlayer (user : User) (g : GameState) : GameState :=
  Game.set_players g
    (players g ++ [mkPlayer (user_id user) (user_username user) 0 false]).

Definition removedPlayer (playerId : string) (g : GameState) : GameState :=
  Game.set_players g (Game.removeFirst playerId (players g)).

Definition startedGame (g : GameState) : GameState :=
  let game1 := Game.set_isActive g true in
  let game2 := Game.set_currentRound game1 0 in
  let game3 := Game.set_usedWords game2 [] in
  Game.set_players game3 (map Game.resetPlayer (players game3)).

Definition endedGame (g : GameState) : GameState :=
  Game.set_isRoundActive (Game.set_isActive g false) false.

Definition nextRound (g : GameState) : GameState :=
  Game.set_currentRound g (currentRound g + 1).

Definition begunRound (sh : list string -> list string) (drawer : Player)
  (game1 : GameState) : GameState :=
  let game2 := Game.set_currentDrawer game1 (Some (player_id drawer)) in
  let game3 :=
    Game.set_wordOptions game2
      (Game.generateWordOptions sh (usedWords game2)) in
  let game4 := Game.set_currentWord game3 None in
  let game5 := Game.set_guessedPlayers game4 [] in
  let game6 :=
    Game.set_players game5 (map Game.resetGuessed (players game5)) in
  Game.set_isRoundActive game6 false.

Definition selectedWord (word : string) (t : Z) (g : GameState)
  : GameState :=
  let game1 := Game.set_currentWord g (Some word) in
  let game2 := Game.set_usedWords game1 (usedWords game1 ++ [word]) in
  let game3 := Game.set_isRoundActive game2 true in
  Game.set_roundStartTime game3 (Some t).

Definition guessedBy (playerId : string) (t : Z) (g : GameState)
  : GameState :=
  let game1 :=
    Game.set_players g
      (Game.updateFirst playerId Game.markGuessed (players g)) in
  let game2 :=
    Game.set_guessedPlayers game1 (guessedPlayers game1 ++ [playerId]) in
  let pts :=
    Game.basePoints (Z.of_nat (length (guessedPlayers game2)))
    + Game.timeBonus t game2 in
  let game3 :=
    Game.set_players game2
      (Game.updateFirst playerId (Game.addScore pts) (players game2)) in
  Game.rewardDrawer game3.

(** One mutation of a game object, with the test that guards it. *)
Inductive GameStep : GameState -> GameState -> Prop :=
| StepAddPlayer g user :
    List.find (Game.hasId (user_id user)) (players g) = None ->
    GameStep g (addedPlayer user g)
| StepRemovePlayer g playerId :
    GameStep g (removedPlayer playerId g)
| StepEndRound g :
    GameStep g (Game.endRoundOn g).2
| StepStartGame g :
    isActive g = false ->
    GameStep g (startedGame g)
| StepEndGame g :
    GameStep g (endedGame g)
| StepNextRound g :
    isActive g = true ->
    GameStep g (nextRound g)
| StepBeginRound sh drawer g :
    Game.drawerAt g = Some drawer ->
    GameStep g (begunRound sh drawer g)
| StepSelectWord word t g :
    Game.includes word (wordOptions g) = true ->
    GameStep g (selectedWord word t g)
| StepGuess playerId t g p :
    isRoundActive g = true ->
    List.find (Game.hasId playerId) (players g) = Some p ->
    hasGuessed p = false ->
    Game.isDrawer g playerId = false ->
    GameStep g (guessedBy playerId t g).

(** Every game of [games'] comes from the game stored under the same id in
    [games], or from a newly created one, through such mutations. *)
Definition evolves (games games' : gmap string GameState) : Prop :=
  forall rid g',
    games' !! rid = Some g' ->
    (exists g, games !! rid = Some g /\ rtc GameStep g g')
    \/ (exists s, rtc GameStep (newGame rid s) g').

(** ** Properties of a game that hold at all times *)

(** The game is stored under its own room id and no two players share an
    id. *)
Definition identified (rid : string) (g : GameState) : Prop :=
  roomId g = rid /\ NoDup (map player_id (players g)).

(** Rounds are counted from zero up and no score is negative. *)
Definition counted (g : GameState) : Prop :=
  0 <= currentRound g /\ Forall (fun p => 0 <= score p) (players g).

(** An active round has its word, one of the options, and its start time;
    the drawer is never among those who guessed; at most three words are on
    offer. *)
Definition coherent (g : GameState) : Prop :=
  (isRoundActive g = true ->
   exists w t,
     currentWord g = Some w /\ In w (wordOptions g)
     /\ roundStartTime g = Some t)
  /\ (forall d, currentDrawer g = Some d -> ~ In d (guessedPlayers g))
  /\ (length (wordOptions g) <= 3)%nat.

(** A computation keeps a property of the room registry. *)
Definition preservesRooms (P : gmap string RoomRec -> Prop) {A : Type}
  (m : M A) : Prop :=
  forall w, P (rooms w) -> P (rooms (worldOf (m w))).

(** Every room is stored under its own id and has at least one user. *)
Definition populated (rooms : gmap string RoomRec) : Prop :=
  forall k r, rooms !! k = Some r -> room_id r = k /\ room_users r <> [].

(** ** Reading a mask or a hint *)

(** The characters of a mask or hint, without the spaces that [join(' ')]
    puts between them. *)
Fixpoint unspaced (l : list ascii) : list ascii :=
  match l with
  | [] => []
  | c :: r =>
      c :: match r with
           | [] => []
           | _ :: r' => unspaced r'
           end
  end.

(** The characters of a mask or hint that are not the blank [_]. *)
Definition revealed (l : list ascii) : list ascii :=
  List.filter (fun c => negb (Ascii.eqb c "_")) l.

(** ** The final ranking *)

(** A score table in descending order. *)
Definition descending (ps : list Player) : Prop :=
  StronglySorted (fun p q => score q <= score p) ps.

(** * Properties of the game model *)

Section PlayerLists.

Variable f : Player -> Player.
Hypothesis f_keeps_id : forall p, player_id (f p) = player_id p.

Lemma find_updateFirst_same (a : string) (ps : list Player) :
  List.find (Game.hasId a) (Game.updateFirst a f ps)
  = f <$> List.find (Game.hasId a) ps.
Proof.
  induction ps as [|p r IH]; simpl; [reflexivity|].
  destruct (Game.hasId a p) eqn:E; simpl.
  - unfold Game.hasId in *. rewrite f_keeps_id, E. reflexivity.
  - rewrite E. exact IH.
Qed.

Lemma find_updateFirst_other (a b : string) (ps : list Player) :
  a <> b ->
  List.find (Game.hasId a) (Game.updateFirst b f ps)
  = List.find (Game.hasId a) ps.
Proof.
  intros Hne. induction ps as [|p r IH]; simpl; [reflexivity|].
  destruct (Game.hasId b p) eqn:Eb; simpl.
  - unfold Game.hasId in *. rewrite f_keeps_id.
    apply String.eqb_eq in Eb.
    destruct (String.eqb_spec (player_id p) a) as [Ea|Ea]; [congruence|].
    reflexivity.
  - destruct (Game.hasId a p); [reflexivity | exact IH].
Qed.

End PlayerLists.

Lemma processGuess_cases rid playerId guess now (games : gmap string GameState) :
  Game.processGuess rid playerId guess now games = (Game.noGuess, games)
  \/ correct (Game.processGuess rid playerId guess now games).1 = true.
Proof.
  unfold Game.processGuess.
  destruct (games !! rid) as [g|]; [|by left].
  destruct (negb (isRoundActive g) || Game.noWord g); [by left|].
  destruct (List.find _ _) as [p|]; [|by left].
  destruct (hasGuessed p || Game.isDrawer g playerId); [by left|].
  destruct (_ =? _)%string; [by right | by left].
Qed.
Lemma processGuess_rejects rid playerId guess now
  (games : gmap string GameState) :
  rejected games rid playerId guess ->
  Game.processGuess rid playerId guess now games = (Game.noGuess, games).
Proof.
  intros Hr. unfold rejected in Hr. unfold Game.processGuess.
  destruct (games !! rid) as [g|]; [|reflexivity].
  destruct (isRoundActive g) eqn:Ha; simpl; [|reflexivity].
  destruct (Game.noWord g) eqn:Hw; [reflexivity|].
  destruct (List.find _ _) as [p|] eqn:Hf; [|reflexivity].
  destruct (hasGuessed p) eqn:Hg; [reflexivity|]. simpl.
  destruct (Game.isDrawer g playerId) eqn:Hd; [reflexivity|].
  destruct (String.eqb_spec
              (JsString.trim (JsString.toLowerCase guess))
              (JsString.toLowerCase (default "" (currentWord g))))
    as [He|He]; [|reflexivity].
  destruct Hr as [H|[H|[H|[H|[[q [H1 H2]]|H]]]]]; congruence.
Qed.

(** C10. A call of [processGuess] that does not return a correct guess, be
    it for one of the listed reasons (no game, no active round, no current
    word, unknown player, the drawer, a player who has already guessed, a
    text that differs from the word), returns the rejection object and
    leaves the game registry exactly as it was: no score, no [hasGuessed]
    flag and no entry of [guessedPlayers] changes. *)
Theorem processGuess_rejected_unchanged rid playerId guess now
  (games : gmap string GameState) :
  correct (Game.processGuess rid playerId guess now games).1 = false
  \/ rejected games rid playerId guess ->
  Game.processGuess rid playerId guess now games = (Game.noGuess, games).
Proof.
  intros [Hc|Hr].
  - destruct (processGuess_cases rid playerId guess now games) as [H|H];
      [exact H | congruence].
  - by apply processGuess_rejects.
Qed.

Lemma processGuess_rejected_unchanged_witness :
  correct
    (Game.processGuess "r1" "b" "banana" 20000
       (games (Scenario.after Scenario.drawing))).1 = false
  /\ Game.processGuess "r1" "b" "banana" 20000
       (games (Scenario.after Scenario.drawing))
     = (Game.noGuess, games (Scenario.after Scenario.drawing)).
Proof.
  split; [vm_compute; reflexivity|].
  apply (processGuess_rejected_unchanged "r1" "b" "banana" 20000).
  left. vm_compute. reflexivity.
Defined.

Lemma basePoints_spec (n : nat) :
  Game.basePoints (Z.of_nat (S n)) = specBase (S n).
Proof.
  destruct n as [|[|[|n]]]; try reflexivity.
  unfold Game.basePoints, specBase.
  set (k := Z.of_nat (S (S (S (S n))))).
  assert (Hk : 4 <= k) by (unfold k; lia). clearbody k.
  destruct (Z.eqb_spec k 1); [lia|].
  destruct (Z.eqb_spec k 2); [lia|].
  destruct (Z.eqb_spec k 3); [lia|].
  reflexivity.
Qed.

Lemma rewardDrawer_found g d dp :
  currentDrawer g = Some d ->
  List.find (Game.hasId d) (players g) = Some dp ->
  Game.rewardDrawer g
  = Game.set_players g (Game.updateFirst d (Game.addScore 25) (players g)).
Proof. intros Hd Hf. unfold Game.rewardDrawer. by rewrite Hd, Hf. Qed.

Lemma processGuess_accepted rid playerId guess now
  (games : gmap string GameState) g p w :
  games !! rid = Some g ->
  isRoundActive g = true ->
  currentWord g = Some w -> w <> "" ->
  List.find (Game.hasId playerId) (players g) = Some p ->
  hasGuessed p = false ->
  Game.isDrawer g playerId = false ->
  JsString.trim (JsString.toLowerCase guess) = JsString.toLowerCase w ->
  let game2 :=
    Game.set_guessedPlayers
      (Game.set_players g
         (Game.updateFirst playerId Game.markGuessed (players g)))
      (guessedPlayers g ++ [playerId]) in
  let pts :=
    Game.basePoints (Z.of_nat (length (guessedPlayers game2)))
    + Game.timeBonus now game2 in
  let game4 :=
    Game.rewardDrawer
      (Game.set_players game2
         (Game.updateFirst playerId (Game.addScore pts) (players game2))) in
  (Game.processGuess rid playerId guess now games).2 = <[rid := game4]> games
  /\ correct (Game.processGuess rid playerId guess now games).1 = true
  /\ points (Game.processGuess rid playerId guess now games).1 = pts
  /\ player (Game.processGuess rid playerId guess now games).1
     = Some (Game.addScore pts (Game.markGuessed p)).
Proof.
  intros Hg Ha Hw Hne Hp Hng Hnd Heq. cbv zeta.
  unfold Game.processGuess. rewrite Hg, Ha. simpl.
  assert (Hnw : Game.noWord g = false).
  { unfold Game.noWord, JsString.truthy. rewrite Hw.
    destruct (String.eqb_spec w ""); [congruence | reflexivity]. }
  rewrite Hnw, Hp, Hng. simpl.
  rewrite Hnd, Hw. simpl. rewrite Heq, String.eqb_refl.
  repeat split.
Qed.

(** C5. An eligible correct guess (the guesser is a player, is not the
    drawer, has not guessed yet, and the trimmed lower-cased text is the
    lower-cased word) is accepted; the guesser becomes the next entry of
    [guessedPlayers]; the points are the base award for that guess order
    (100, 75, 50, then 25) plus the time bonus
    [max 0 (floor ((drawTime - elapsedSeconds) / 2))], where the elapsed
    seconds are the milliseconds from the round's start time to now, divided
    by 1000; the guesser's score grows by the points and the drawer's by
    exactly 25.  The bounds on the clock, the draw time and the scores are
    those within which the doubles of the engine give the exact values:
    timestamps are whole milliseconds below 2^53, so their difference is
    exact; with at most 2^40 ms elapsed and a draw time of at most 2^31 s
    the computed [(drawTime - elapsed / 1000) / 2] is within 2^-20 of the
    exact quotient, which is an integer (then computed exactly) or at least
    1/2000 away from one; the sums stay below 2^53. *)
Theorem processGuess_awards rid playerId guess now
  (games : gmap string GameState) g p d dp w start :
  games !! rid = Some g ->
  isRoundActive g = true ->
  currentWord g = Some w -> w <> "" ->
  List.find (Game.hasId playerId) (players g) = Some p ->
  hasGuessed p = false ->
  currentDrawer g = Some d -> d <> playerId ->
  List.find (Game.hasId d) (players g) = Some dp ->
  JsString.trim (JsString.toLowerCase guess) = JsString.toLowerCase w ->
  roundStartTime g = Some start ->
  0 <= start < 2 ^ 53 -> 0 <= now < 2 ^ 53 ->
  Z.abs (now - start) <= 2 ^ 40 ->
  Z.abs (drawTime g) <= 2 ^ 31 ->
  Z.abs (score p) <= 2 ^ 52 -> Z.abs (score dp) <= 2 ^ 52 ->
  exists g',
    (Game.processGuess rid playerId guess now games).2 !! rid = Some g'
    /\ correct (Game.processGuess rid playerId guess now games).1 = true
    /\ guessedPlayers g' = (guessedPlayers g ++ [playerId])%list
    /\ points (Game.processGuess rid playerId guess now games).1
       = specBase (S (length (guessedPlayers g)))
         + specTimeBonus (drawTime g)
             (inject_Z (now - start) / inject_Z 1000)%Q
    /\ scoreOf playerId g'
       = Some (score p
               + points (Game.processGuess rid playerId guess now games).1)
    /\ scoreOf d g' = Some (score dp + 25).
Proof.
  intros Hg Ha Hw Hne Hp Hng Hd Hdp Hdf Heq Hstart _ _ _ _ _ _.
  assert (Hnd : Game.isDrawer g playerId = false).
  { unfold Game.isDrawer. rewrite Hd.
    destruct (String.eqb_spec d playerId); [congruence | reflexivity]. }
  destruct (processGuess_accepted rid playerId guess now games g p w
              Hg Ha Hw Hne Hp Hng Hnd Heq) as (Hst & Hc & Hpts & _).
  cbv zeta in Hst, Hpts.
  set (game2 := Game.set_guessedPlayers
                  (Game.set_players g
                     (Game.updateFirst playerId Game.markGuessed (players g)))
                  (guessedPlayers g ++ [playerId])) in *.
  set (pts := Game.basePoints (Z.of_nat (length (guessedPlayers game2)))
              + Game.timeBonus now game2) in *.
  set (game3 := Game.set_players game2
                  (Game.updateFirst playerId (Game.addScore pts)
                     (players game2))) in *.
  assert (Hfd : List.find (Game.hasId d) (players game3) = Some dp).
  { simpl. rewrite !find_updateFirst_other by (reflexivity || done).
    exact Hdf. }
  rewrite (rewardDrawer_found game3 d dp Hd Hfd) in Hst.
  rewrite Hst, Hc, Hpts. eexists. split; [apply lookup_insert_eq|].
  split; [reflexivity|]. split; [reflexivity|]. split.
  { unfold pts. simpl. rewrite length_app. simpl.
    replace (length (guessedPlayers g) + 1)%nat
      with (S (length (guessedPlayers g))) by lia.
    rewrite basePoints_spec. f_equal.
    unfold Game.timeBonus, Game.timeElapsed, specTimeBonus. simpl.
    rewrite Hstart. reflexivity. }
  unfold scoreOf. simpl. split.
  - rewrite find_updateFirst_other by (reflexivity || congruence).
    rewrite !find_updateFirst_same by reflexivity.
    rewrite Hp. reflexivity.
  - rewrite find_updateFirst_same by reflexivity.
    simpl in Hfd. rewrite Hfd. reflexivity.
Qed.

Lemma processGuess_awards_witness :
  let gs := games (Scenario.after Scenario.drawing) in
  let r := Game.processGuess "r1" "a" " Apple " 20000 gs in
  exists g',
    r.2 !! "r1" = Some g'
    /\ correct r.1 = true
    /\ guessedPlayers g' = ["a"]
    /\ points r.1 = 125
    /\ scoreOf "a" g' = Some 125
    /\ scoreOf "d" g' = Some 25.
Proof.
  apply (processGuess_awards "r1" "a" " Apple " 20000
           (games (Scenario.after Scenario.drawing)) Scenario.drawingGame
           (mkPlayer "a" "Ann" 0 false) "d" (mkPlayer "d" "Dan" 0 false)
           "apple" 10000).
  - vm_compute. reflexivity.
  - reflexivity.
  - reflexivity.
  - discriminate.
  - reflexivity.
  - reflexivity.
  - reflexivity.
  - discriminate.
  - reflexivity.
  - vm_compute. reflexivity.
  - reflexivity.
  - lia.
  - lia.
  - simpl. lia.
  - simpl. lia.
  - simpl. lia.
  - simpl. lia.
Defined.

(** * Properties kept by every handler *)

Section GameRegistryInvariant.

Variable P : gmap string GameState -> Prop.
Variable okSettings : option Settings -> Prop.

Hypothesis P_update : forall (games : gmap string GameState) rid g g',
  P games -> games !! rid = Some g ->
  rounds g' = rounds g -> drawTime g' = drawTime g ->
  P (<[rid := g']> games).
Hypothesis P_create : forall (games : gmap string GameState) rid s,
  P games -> okSettings s -> P (Game.createGame rid s games).2.
Hypothesis ok_none : okSettings None.

Lemma preserves_ret {A} (a : A) : preserves P (mret a).
Proof. intros w H. exact H. Qed.

Lemma preserves_bind {A B} (m : M A) (f : A -> M B) :
  preserves P m -> (forall a, preserves P (f a)) -> preserves P (m ≫= f).
Proof.
  intros Hm Hf w H. specialize (Hm w H).
  unfold mbind, M_bind, worldOf in *.
  destruct (m w) as [[[a|what] w1] e1]; simpl in *; [|exact Hm].
  specialize (Hf a w1 Hm). destruct (f a w1) as [[o w2] e2]. exact Hf.
Qed.

Lemma preserves_emit t p : preserves P (emit t p).
Proof. intros w H. exact H. Qed.

Lemma preserves_setTimeout a ms : preserves P (setTimeout a ms).
Proof. intros w H. exact H. Qed.

Lemma preserves_readRooms {A} (f : gmap string RoomRec -> A) :
  preserves P (readRooms f).
Proof. intros w H. exact H. Qed.

Lemma preserves_readGames {A} (f : gmap string GameState -> A) :
  preserves P (readGames f).
Proof. intros w H. exact H. Qed.

Lemma preserves_liftRoom {A}
  (f : gmap string RoomRec -> A * gmap string RoomRec) :
  preserves P (liftRoom f).
Proof.
  intros w H. unfold liftRoom, worldOf. destruct (f (rooms w)). exact H.
Qed.

Lemma preserves_join sid room : preserves P (join sid room).
Proof. intros w H. exact H. Qed.

Lemma preserves_leaveAll sid : preserves P (leaveAll sid).
Proof. intros w H. exact H. Qed.

Lemma preserves_liftGame {A}
  (f : gmap string GameState -> A * gmap string GameState) :
  (forall games, P games -> P (f games).2) -> preserves P (liftGame f).
Proof.
  intros Hf w H. unfold liftGame, worldOf. specialize (Hf _ H).
  destruct (f (games w)). exact Hf.
Qed.

Lemma preserves_liftGameThrowing {A}
  (f : gmap string GameState -> Outcome A * gmap string GameState) :
  (forall games, P games -> P (f games).2) ->
  preserves P (liftGameThrowing f).
Proof.
  intros Hf w H. unfold liftGameThrowing, worldOf. specialize (Hf _ H).
  destruct (f (games w)). exact Hf.
Qed.

Lemma preserves_forEach {A} (l : list A) (f : A -> M unit) :
  (forall x, preserves P (f x)) -> preserves P (forEach l f).
Proof.
  intros Hf. induction l as [|x r IH]; simpl.
  - apply preserves_ret.
  - apply preserves_bind; [apply Hf | intros _; exact IH].
Qed.

(** *** The operations of the game model *)

Lemma addPlayer_keeps rid user games :
  P games -> P (Game.addPlayer rid user games).2.
Proof.
  intros H. unfold Game.addPlayer.
  destruct (games !! rid) as [g|] eqn:Hg; [|exact H].
  destruct (List.find _ _); [exact H|].
  simpl. eapply P_update; eauto.
Qed.

Lemma endRound_keeps rid games :
  P games -> P (Game.endRound rid games).2.
Proof.
  intros H. unfold Game.endRound.
  destruct (games !! rid) as [g|] eqn:Hg; [|exact H].
  simpl. eapply P_update; eauto.
Qed.

Lemma removePlayer_keeps rid playerId games :
  P games -> P (Game.removePlayer rid playerId games).2.
Proof.
  intros H. unfold Game.removePlayer.
  destruct (games !! rid) as [g|] eqn:Hg; [|exact H].
  destruct (List.find _ _); [|exact H].
  assert (H1 : P (<[rid := Game.set_players g
                      (Game.removeFirst playerId (players g))]> games))
    by (eapply P_update; eauto).
  destruct (_ && _); simpl; [|exact H1].
  apply endRound_keeps. exact H1.
Qed.

Lemma startGame_keeps rid games :
  P games -> P (Game.startGame rid games).2.
Proof.
  intros H. unfold Game.startGame.
  destruct (games !! rid) as [g|] eqn:Hg; [|exact H].
  destruct (isActive g); [exact H|].
  simpl. eapply P_update; eauto.
Qed.

Lemma endGame_keeps rid games :
  P games -> P (Game.endGame rid games).2.
Proof.
  intros H. unfold Game.endGame.
  destruct (games !! rid) as [g|] eqn:Hg; [|exact H].
  simpl. eapply P_update; eauto.
Qed.

Lemma startRound_keeps sh rid games :
  P games -> P (Game.startRound sh rid games).2.
Proof.
  intros H. unfold Game.startRound.
  destruct (games !! rid) as [g|] eqn:Hg; [|exact H].
  destruct (negb (isActive g)); [exact H|].
  assert (H1 : P (<[rid := Game.set_currentRound g (currentRound g + 1)]>
                    games))
    by (eapply P_update; eauto).
  destruct (_ <? _).
  - simpl. apply endGame_keeps. exact H1.
  - destruct (Game.drawerAt _); simpl; [|exact H1].
    eapply P_update; eauto.
Qed.

Lemma selectWord_keeps rid word now games :
  P games -> P (Game.selectWord rid word now games).2.
Proof.
  intros H. unfold Game.selectWord.
  destruct (games !! rid) as [g|] eqn:Hg; [|exact H].
  destruct (negb _); [exact H|].
  simpl. eapply P_update; eauto.
Qed.

Lemma rewardDrawer_config g :
  rounds (Game.rewardDrawer g) = rounds g
  /\ drawTime (Game.rewardDrawer g) = drawTime g.
Proof.
  unfold Game.rewardDrawer.
  destruct (currentDrawer g); [|done].
  destruct (List.find _ _); done.
Qed.

Lemma processGuess_keeps rid playerId guess now games :
  P games -> P (Game.processGuess rid playerId guess now games).2.
Proof.
  intros H. unfold Game.processGuess.
  destruct (games !! rid) as [g|] eqn:Hg; [|exact H].
  destruct (_ || _); [exact H|].
  destruct (List.find _ _); [|exact H].
  destruct (_ || _); [exact H|].
  destruct (_ =? _)%string; [|exact H].
  simpl. eapply P_update; eauto.
  - by rewrite (proj1 (rewardDrawer_config _)).
  - by rewrite (proj2 (rewardDrawer_config _)).
Qed.

(** *** The handlers *)

Ltac keep :=
  repeat first
    [ apply preserves_ret
    | apply preserves_emit
    | apply preserves_setTimeout
    | apply preserves_readRooms
    | apply preserves_readGames
    | apply preserves_liftRoom
    | apply preserves_join
    | apply preserves_leaveAll
    | apply preserves_bind; [|intros ?]
    | match goal with
      | |- preserves _ (if ?b then _ else _) => destruct b
      | |- preserves _ (match ?x with _ => _ end) => destruct x
      end ].

Lemma handleCreateRoom_keeps env sid roomName username :
  preserves P (SocketController.handleCreateRoom env sid roomName username).
Proof.
  unfold SocketController.handleCreateRoom. keep.
  - apply preserves_liftGame. intros; by apply P_create.
  - apply preserves_liftGame. intros; by apply addPlayer_keeps.
Qed.

Lemma handleJoinRoom_keeps env sid rid username :
  preserves P (SocketController.handleJoinRoom env sid rid username).
Proof.
  unfold SocketController.handleJoinRoom. keep.
  - apply preserves_liftGame. intros; by apply P_create.
  - apply preserves_liftGame. intros; by apply addPlayer_keeps.
Qed.

Lemma handleDrawing_keeps env sid rid dd :
  preserves P (SocketController.handleDrawing env sid rid dd).
Proof. unfold SocketController.handleDrawing. keep. Qed.

Lemma handleClearCanvas_keeps sid rid :
  preserves P (SocketController.handleClearCanvas sid rid).
Proof.
  unfold SocketController.handleClearCanvas, SocketController.emitAll.
  keep.
Qed.

Lemma handleChatMessage_keeps env sid rid message :
  preserves P (SocketController.handleChatMessage env sid rid message).
Proof.
  unfold SocketController.handleChatMessage,
    SocketController.getUserFromSocket, SocketController.regularChat,
    SocketController.emitAll.
  keep.
  apply preserves_liftGame. intros; by apply processGuess_keeps.
Qed.

Lemma handleStartGame_keeps sid rid s :
  okSettings s ->
  preserves P (SocketController.handleStartGame sid rid s).
Proof.
  intros Hs.
  unfold SocketController.handleStartGame, SocketController.emitAll.
  keep.
  - apply preserves_liftGame. intros; by apply P_create.
  - apply preserves_liftGame. intros; by apply startGame_keeps.
Qed.

Lemma handleStartRound_keeps env sid rid :
  preserves P (SocketController.handleStartRound env sid rid).
Proof.
  unfold SocketController.handleStartRound, SocketController.emitAll.
  keep.
  apply preserves_liftGameThrowing. intros; by apply startRound_keeps.
Qed.

Lemma handleSelectWord_keeps env sid rid word :
  preserves P (SocketController.handleSelectWord env sid rid word).
Proof.
  unfold SocketController.handleSelectWord. keep.
  apply preserves_liftGame. intros; by apply selectWord_keeps.
Qed.

Lemma handleRequestHint_keeps env sid rid :
  preserves P (SocketController.handleRequestHint env sid rid).
Proof. unfold SocketController.handleRequestHint. keep. Qed.

Lemma handleEndRound_keeps sid rid :
  preserves P (SocketController.handleEndRound sid rid).
Proof.
  unfold SocketController.handleEndRound, SocketController.emitAll. keep.
  apply preserves_liftGame. intros; by apply endRound_keeps.
Qed.

Lemma handleDisconnect_keeps sid :
  preserves P (SocketController.handleDisconnect sid).
Proof.
  unfold SocketController.handleDisconnect. keep.
  apply preserves_forEach. intros room.
  unfold SocketController.leaveRoom. keep.
  apply preserves_liftGame. intros; by apply removePlayer_keeps.
Qed.

Lemma fire_keeps env a : preserves P (SocketController.fire env a).
Proof.
  destruct a; simpl.
  - apply handleEndRound_keeps.
  - keep; apply handleEndRound_keeps.
  - apply handleStartRound_keeps.
  - unfold SocketController.emitAll. keep.
    apply preserves_liftGame. intros; by apply endGame_keeps.
Qed.

Lemma step_keeps env i :
  inputSettingsOk okSettings i -> preserves P (SocketController.step env i).
Proof.
  intros Hi. destruct i as [sid|sid ev|sid|a]; simpl.
  - apply preserves_join.
  - destruct ev; simpl in *.
    + apply handleCreateRoom_keeps.
    + apply handleJoinRoom_keeps.
    + apply handleDrawing_keeps.
    + apply handleClearCanvas_keeps.
    + apply handleChatMessage_keeps.
    + by apply handleStartGame_keeps.
    + apply handleStartRound_keeps.
    + apply handleSelectWord_keeps.
    + apply handleRequestHint_keeps.
    + apply handleEndRound_keeps.
  - apply preserves_bind; [apply preserves_leaveAll|intros _].
    apply handleDisconnect_keeps.
  - apply fire_keeps.
Qed.

Lemma run_keeps inputs :
  Forall (fun ei => inputSettingsOk okSettings ei.2) inputs ->
  preserves P (SocketController.run inputs).
Proof.
  induction 1 as [|[env i] rest Hi _ IH]; simpl.
  - apply preserves_ret.
  - apply preserves_bind; [by apply step_keeps | intros _; exact IH].
Qed.

End GameRegistryInvariant.

(** * Game settings *)

Lemma orDefault_range lo hi d x :
  fieldOk lo hi x -> lo <= d <= hi -> lo <= Game.orDefault x d <= hi.
Proof.
  unfold fieldOk, Game.orDefault. destruct x as [v|]; [|done].
  intros [->|Hv] Hd; [done|].
  destruct (Z.eqb_spec v 0); done.
Qed.

Lemma handleStartGame_existing sid rid s w g :
  games w !! rid = Some g ->
  exists g',
    games (worldOf (SocketController.handleStartGame sid rid s w)) !! rid
    = Some g'
    /\ rounds g' = rounds g /\ drawTime g' = drawTime g
    /\ settings g' = settings g.
Proof.
  intros Hg. unfold SocketController.handleStartGame.
  destruct (negb (JsString.truthy rid)); [by exists g|].
  unfold mbind, M_bind, readGames, liftGame, liftRoom, Game.getGame,
    Game.startGame, worldOf, SocketController.emitAll, emit, setTimeout,
    skip, mret, M_ret.
  simpl. rewrite Hg. simpl. rewrite Hg.
  destruct (isActive g); simpl; [by exists g|].
  destruct (Room.clearDrawingData rid (rooms w)) as [b r]. simpl.
  rewrite lookup_insert_eq. simpl. rewrite lookup_insert_eq.
  eexists; split; [reflexivity|]. done.
Qed.

Lemma handleStartGame_fresh sid rid s w :
  JsString.truthy rid = true ->
  games w !! rid = None ->
  exists g',
    games (worldOf (SocketController.handleStartGame sid rid s w)) !! rid
    = Some g'
    /\ isActive g' = true
    /\ rounds g'
       = Game.orDefault (settings_rounds (default (mkSettings None None) s)) 3
    /\ drawTime g'
       = Game.orDefault
           (settings_drawTime (default (mkSettings None None) s)) 60
    /\ In (Emit (ToSocket sid) (PGameStarted (rounds g') (drawTime g'))
             (recipients (adapter w) (ToSocket sid)))
         (effectsOf (SocketController.handleStartGame sid rid s w)).
Proof.
  intros Ht Hg. unfold SocketController.handleStartGame. rewrite Ht.
  unfold mbind, M_bind, readGames, liftGame, liftRoom, Game.getGame,
    Game.startGame, Game.createGame, worldOf, effectsOf,
    SocketController.emitAll, emit, setTimeout, skip, mret, M_ret.
  simpl. rewrite Hg. simpl. rewrite lookup_insert_eq. simpl.
  destruct (Room.clearDrawingData rid (rooms w)) as [b r]. simpl.
  rewrite lookup_insert_eq. simpl. rewrite lookup_insert_eq.
  eexists; split; [reflexivity|]. simpl.
  repeat split. right. right. right. left. reflexivity.
Qed.

(** * The configuration of the game of a room *)

Lemma keeps_ret (I : World -> Prop) {A} (a : A) : keeps I (mret a).
Proof. intros w H. exact H. Qed.

Lemma keeps_bind (I : World -> Prop) {A B} (m : M A) (f : A -> M B) :
  keeps I m -> (forall a, keeps I (f a)) -> keeps I (m ≫= f).
Proof.
  intros Hm Hf w H. specialize (Hm w H).
  unfold mbind, M_bind, worldOf in *.
  destruct (m w) as [[[a|what] w1] e1]; simpl in *; [|exact Hm].
  specialize (Hf a w1 Hm). destruct (f a w1) as [[o w2] e2]. exact Hf.
Qed.

Lemma keeps_forEach (I : World -> Prop) {A} (l : list A) (f : A -> M unit) :
  (forall x, keeps I (f x)) -> keeps I (forEach l f).
Proof.
  intros Hf. induction l as [|x r IH]; simpl.
  - apply keeps_ret.
  - apply keeps_bind; [apply Hf | intros _; exact IH].
Qed.

Lemma defaults_emit t p : keeps roomsHaveDefaults (emit t p).
Proof. intros w H. exact H. Qed.

Lemma defaults_setTimeout a ms : keeps roomsHaveDefaults (setTimeout a ms).
Proof. intros w H. exact H. Qed.

Lemma defaults_readRooms {A} (f : gmap string RoomRec -> A) :
  keeps roomsHaveDefaults (readRooms f).
Proof. intros w H. exact H. Qed.

Lemma defaults_readGames {A} (f : gmap string GameState -> A) :
  keeps roomsHaveDefaults (readGames f).
Proof. intros w H. exact H. Qed.

Lemma defaults_join sid room : keeps roomsHaveDefaults (join sid room).
Proof. intros w H. exact H. Qed.

Lemma defaults_leaveAll sid : keeps roomsHaveDefaults (leaveAll sid).
Proof. intros w H. exact H. Qed.

(** An operation of the room model that adds no room. *)
Lemma defaults_liftRoom {A}
  (f : gmap string RoomRec -> A * gmap string RoomRec) :
  (forall rs rid, is_Some ((f rs).2 !! rid) -> is_Some (rs !! rid)) ->
  keeps roomsHaveDefaults (liftRoom f).
Proof.
  intros Hf w H rid Hr. unfold liftRoom, worldOf in Hr |- *.
  specialize (Hf (rooms w) rid). destruct (f (rooms w)) as [a rs].
  simpl in *. apply H, Hf, Hr.
Qed.

(** An operation of the game model that keeps a default game a default
    game. *)
Lemma defaults_liftGame {A}
  (f : gmap string GameState -> A * gmap string GameState) :
  (forall rid gs, defaultAt rid gs -> defaultAt rid (f gs).2) ->
  keeps roomsHaveDefaults (liftGame f).
Proof.
  intros Hf w H rid Hr. unfold liftGame, worldOf in Hr |- *.
  specialize (Hf rid (games w)). destruct (f (games w)) as [a gs].
  simpl in *. apply Hf, H, Hr.
Qed.

Lemma defaults_liftGameThrowing {A}
  (f : gmap string GameState -> Outcome A * gmap string GameState) :
  (forall rid gs, defaultAt rid gs -> defaultAt rid (f gs).2) ->
  keeps roomsHaveDefaults (liftGameThrowing f).
Proof.
  intros Hf w H rid Hr. unfold liftGameThrowing, worldOf in Hr |- *.
  specialize (Hf rid (games w)). destruct (f (games w)) as [a gs].
  simpl in *. apply Hf, H, Hr.
Qed.

Lemma defaultAt_update rid0 (games : gmap string GameState) rid g g' :
  defaultAt rid0 games -> games !! rid = Some g ->
  rounds g' = rounds g -> drawTime g' = drawTime g ->
  defaultAt rid0 (<[rid := g']> games).
Proof.
  intros (g0 & H0 & Hr & Hd) Hg Hr' Hd'.
  destruct (decide (rid = rid0)) as [->|Hne].
  - exists g'. rewrite lookup_insert_eq. split; [reflexivity|].
    rewrite H0 in Hg. injection Hg as <-. by rewrite Hr', Hd'.
  - exists g0. by rewrite lookup_insert_ne.
Qed.

Lemma defaultAt_create rid0 (games : gmap string GameState) rid :
  defaultAt rid0 games -> defaultAt rid0 (Game.createGame rid None games).2.
Proof.
  intros (g0 & H0 & Hr & Hd). unfold Game.createGame. simpl.
  destruct (decide (rid = rid0)) as [->|Hne].
  - eexists. rewrite lookup_insert_eq. split; [reflexivity|]. by simpl.
  - exists g0. by rewrite lookup_insert_ne.
Qed.

Lemma created_default rid (games : gmap string GameState) :
  defaultAt rid (Game.createGame rid None games).2.
Proof.
  unfold Game.createGame. simpl. eexists. rewrite lookup_insert_eq.
  split; [reflexivity|]. by simpl.
Qed.

Lemma addUser_no_new_room rid user (rs : gmap string RoomRec) k :
  is_Some ((Room.addUser rid user rs).2 !! k) -> is_Some (rs !! k).
Proof.
  unfold Room.addUser. destruct (rs !! rid) as [room|] eqn:Hr; [|done].
  simpl. destruct (decide (rid = k)) as [->|Hne].
  - intros _. by rewrite Hr.
  - by rewrite lookup_insert_ne.
Qed.

Lemma removeUser_no_new_room rid sid (rs : gmap string RoomRec) k :
  is_Some ((Room.removeUser rid sid rs).2 !! k) -> is_Some (rs !! k).
Proof.
  unfold Room.removeUser. destruct (rs !! rid) as [room|] eqn:Hr; [|done].
  destruct (List.find _ _); [|done].
  destruct (_ =? _)%nat; simpl; destruct (decide (rid = k)) as [->|Hne].
  - by rewrite lookup_delete_eq; intros [? ?].
  - by rewrite lookup_delete_ne.
  - intros _. by rewrite Hr.
  - by rewrite lookup_insert_ne.
Qed.

Lemma addDrawingData_no_new_room rid ev (rs : gmap string RoomRec) k :
  is_Some ((Room.addDrawingData rid ev rs).2 !! k) -> is_Some (rs !! k).
Proof.
  unfold Room.addDrawingData. destruct (rs !! rid) as [room|] eqn:Hr; [|done].
  simpl. destruct (decide (rid = k)) as [->|Hne].
  - intros _. by rewrite Hr.
  - by rewrite lookup_insert_ne.
Qed.

Lemma clearDrawingData_no_new_room rid (rs : gmap string RoomRec) k :
  is_Some ((Room.clearDrawingData rid rs).2 !! k) -> is_Some (rs !! k).
Proof.
  unfold Room.clearDrawingData. destruct (rs !! rid) as [room|] eqn:Hr;
    [|done].
  simpl. destruct (decide (rid = k)) as [->|Hne].
  - intros _. by rewrite Hr.
  - by rewrite lookup_insert_ne.
Qed.

Ltac defaults :=
  repeat first
    [ apply keeps_ret
    | apply defaults_emit
    | apply defaults_setTimeout
    | apply defaults_readRooms
    | apply defaults_readGames
    | apply defaults_join
    | apply defaults_leaveAll
    | apply defaults_liftRoom; intros ? ?;
      first [ apply addUser_no_new_room | apply removeUser_no_new_room
            | apply addDrawingData_no_new_room
            | apply clearDrawingData_no_new_room ]
    | apply defaults_liftGame; intros ? ?
    | apply defaults_liftGameThrowing; intros ? ?
    | apply keeps_bind; [|intros ?]
    | match goal with
      | |- keeps _ (if ?b then _ else _) => destruct b
      | |- keeps _ (match ?x with _ => _ end) => destruct x
      end ].

Lemma defaults_handleCreateRoom env sid roomName username :
  keeps roomsHaveDefaults
    (SocketController.handleCreateRoom env sid roomName username).
Proof.
  intros w H. unfold SocketController.handleCreateRoom.
  destruct (_ || _); [exact H|].
  unfold mbind, M_bind, liftRoom, liftGame, join, emit, worldOf,
    Room.createRoom, Room.addUser.
  simpl. rewrite lookup_insert_eq. simpl.
  destruct (Game.addPlayer _ _ _) as [b gs] eqn:Ha. simpl.
  assert (Hgs : gs = (Game.addPlayer (uuid env)
                        (mkUser sid username
                           (SocketController.generateRandomColor env))
                        (Game.createGame (uuid env) None (games w)).2).2)
    by (unfold Game.createGame; simpl; by rewrite Ha).
  rewrite Hgs. intros rid Hr.
  apply (addPlayer_keeps (defaultAt rid) (defaultAt_update rid)).
  destruct (decide (uuid env = rid)) as [<-|Hne].
  - apply created_default.
  - apply defaultAt_create, H.
    simpl in Hr. rewrite ?insert_insert_eq in Hr.
    by rewrite lookup_insert_ne in Hr.
Qed.

(** The registries after [start-game]: the game is created from the
    settings only when none is stored under the room id; no room is
    added. *)
Lemma handleStartGame_world sid rid s w :
  games (worldOf (SocketController.handleStartGame sid rid s w))
  = (if negb (JsString.truthy rid) then games w
     else (Game.startGame rid
             (match games w !! rid with
              | Some _ => games w
              | None => (Game.createGame rid s (games w)).2
              end)).2)
  /\ forall k,
       is_Some
         (rooms (worldOf (SocketController.handleStartGame sid rid s w)) !! k)
       -> is_Some (rooms w !! k).
Proof.
  unfold SocketController.handleStartGame.
  destruct (negb (JsString.truthy rid)); [done|].
  unfold mbind, M_bind, readGames, liftGame, liftRoom, Game.getGame,
    worldOf, SocketController.emitAll, emit, setTimeout, skip, mret, M_ret.
  simpl.
  destruct (games w !! rid) as [g|] eqn:Hg; simpl.
  - destruct (Game.startGame rid (games w)) as [started gs2] eqn:Hs. simpl.
    destruct started; simpl; [|done].
    destruct (Room.clearDrawingData rid (rooms w)) as [b rs] eqn:Hc.
    simpl.
    assert (Hdom : forall k, is_Some (rs !! k) -> is_Some (rooms w !! k)).
    { intros k. pose proof (clearDrawingData_no_new_room rid (rooms w) k).
      by rewrite Hc in *. }
    by destruct (gs2 !! rid).
  - destruct (Game.startGame rid _) as [started gs2] eqn:Hs. simpl.
    destruct started; simpl; [|done].
    destruct (Room.clearDrawingData rid (rooms w)) as [b rs] eqn:Hc.
    simpl.
    assert (Hdom : forall k, is_Some (rs !! k) -> is_Some (rooms w !! k)).
    { intros k. pose proof (clearDrawingData_no_new_room rid (rooms w) k).
      by rewrite Hc in *. }
    by destruct (gs2 !! rid).
Qed.

Lemma defaults_handleStartGame sid rid s :
  keeps roomsHaveDefaults (SocketController.handleStartGame sid rid s).
Proof.
  intros w H k Hk.
  destruct (handleStartGame_world sid rid s w) as [-> Hdom].
  specialize (H k (Hdom k Hk)).
  destruct (negb (JsString.truthy rid)); [exact H|].
  apply (startGame_keeps (defaultAt k) (defaultAt_update k)).
  destruct (games w !! rid) eqn:Hg; [exact H|].
  destruct H as (g0 & H0 & Hr & Hd). exists g0.
  unfold Game.createGame. simpl.
  rewrite lookup_insert_ne by congruence. done.
Qed.

Lemma defaults_handleEndRound sid rid :
  keeps roomsHaveDefaults (SocketController.handleEndRound sid rid).
Proof.
  unfold SocketController.handleEndRound, SocketController.emitAll.
  defaults. by apply (endRound_keeps _ (defaultAt_update _)).
Qed.

Lemma defaults_handleStartRound env sid rid :
  keeps roomsHaveDefaults (SocketController.handleStartRound env sid rid).
Proof.
  unfold SocketController.handleStartRound, SocketController.emitAll.
  defaults. by apply (startRound_keeps _ (defaultAt_update _)).
Qed.

Lemma defaults_step env i :
  keeps roomsHaveDefaults (SocketController.step env i).
Proof.
  destruct i as [sid|sid ev|sid|a]; simpl.
  - apply defaults_join.
  - destruct ev; simpl.
    + apply defaults_handleCreateRoom.
    + unfold SocketController.handleJoinRoom. defaults.
      * by apply defaultAt_create.
      * by apply (addPlayer_keeps _ (defaultAt_update _)).
    + unfold SocketController.handleDrawing. defaults.
    + unfold SocketController.handleClearCanvas, SocketController.emitAll.
      defaults.
    + unfold SocketController.handleChatMessage,
        SocketController.getUserFromSocket, SocketController.regularChat,
        SocketController.emitAll.
      defaults. by apply (processGuess_keeps _ (defaultAt_update _)).
    + apply defaults_handleStartGame.
    + apply defaults_handleStartRound.
    + unfold SocketController.handleSelectWord. defaults.
      by apply (selectWord_keeps _ (defaultAt_update _)).
    + unfold SocketController.handleRequestHint. defaults.
    + apply defaults_handleEndRound.
  - apply keeps_bind; [apply defaults_leaveAll|intros _].
    unfold SocketController.handleDisconnect. defaults.
    apply keeps_forEach. intros room.
    unfold SocketController.leaveRoom. defaults.
    by apply (removePlayer_keeps _ (defaultAt_update _)).
  - destruct a; simpl.
    + apply defaults_handleEndRound.
    + defaults; apply defaults_handleEndRound.
    + apply defaults_handleStartRound.
    + unfold SocketController.emitAll. defaults.
      by apply (endGame_keeps _ (defaultAt_update _)).
Qed.

Lemma defaults_run inputs :
  keeps roomsHaveDefaults (SocketController.run inputs).
Proof.
  induction inputs as [|[env i] rest IH]; simpl.
  - apply keeps_ret.
  - apply keeps_bind; [apply defaults_step | intros _; exact IH].
Qed.

Lemma validAt_update rid0 (games : gmap string GameState) rid g g' :
  validAt rid0 games -> games !! rid = Some g ->
  rounds g' = rounds g -> drawTime g' = drawTime g ->
  validAt rid0 (<[rid := g']> games).
Proof.
  intros Hv Hg Hr Hd x Hx.
  destruct (decide (rid = rid0)) as [->|Hne].
  - rewrite lookup_insert_eq in Hx. injection Hx as <-.
    unfold validConfig. rewrite Hr, Hd. exact (Hv _ Hg).
  - rewrite lookup_insert_ne in Hx by exact Hne. exact (Hv _ Hx).
Qed.

Lemma validAt_create rid0 (games : gmap string GameState) rid s :
  validAt rid0 games -> (rid = rid0 -> settingsOk s) ->
  validAt rid0 (Game.createGame rid s games).2.
Proof.
  intros Hv Hs x Hx. unfold Game.createGame in Hx. simpl in Hx.
  destruct (decide (rid = rid0)) as [->|Hne].
  - rewrite lookup_insert_eq in Hx. injection Hx as <-.
    unfold validConfig. simpl.
    specialize (Hs eq_refl).
    destruct s as [s|]; simpl in *.
    + destruct Hs as [Hr Hd].
      split; apply orDefault_range; try done.
    + lia.
  - rewrite lookup_insert_ne in Hx by exact Hne. exact (Hv _ Hx).
Qed.

Lemma validAt_step rid env i w :
  freshStartInRange rid w i -> validAt rid (games w) ->
  validAt rid (games (worldOf (SocketController.step env i w))).
Proof.
  intros Hi Hv.
  assert (Hother : inputSettingsOk settingsOk i ->
            validAt rid (games (worldOf (SocketController.step env i w)))).
  { intros Hok.
    apply (step_keeps (validAt rid) settingsOk (validAt_update rid));
      [|exact I|exact Hok|exact Hv].
    intros gs r s H1 H2. by apply validAt_create. }
  destruct i as [sid|sid ev|sid|a]; try (apply Hother; exact I).
  destruct ev; try (apply Hother; exact I).
  simpl in Hi |- *.
  match type of Hi with
  | ?r = _ -> _ -> settingsOk ?s =>
      destruct (handleStartGame_world sid r s w) as [-> _];
      destruct (negb (JsString.truthy r)); [exact Hv|];
      apply (startGame_keeps (validAt rid) (validAt_update rid));
      destruct (games w !! r) eqn:Hg; [exact Hv|];
      apply validAt_create; [exact Hv|];
      intros E; rewrite E in Hg; by apply Hi
  end.
Qed.

Lemma validAt_run rid inputs :
  forall w, createdInRange rid inputs w -> validAt rid (games w) ->
    validAt rid (games (worldOf (SocketController.run inputs w))).
Proof.
  induction inputs as [|[env i] rest IH]; intros w Hc Hv; simpl.
  - exact Hv.
  - destruct Hc as [Hi Hc].
    pose proof (validAt_step rid env i w Hi Hv) as H1.
    specialize (IH _ Hc H1).
    unfold mbind, M_bind, worldOf in *.
    destruct (SocketController.step env i w) as [[[u|what] w1] e1];
      simpl in *; [|exact H1].
    destruct (SocketController.run rest w1) as [[o w2] e2]. exact IH.
Qed.

(** C7, as the code has it. [start-game] does not check the settings; it
    reads them only when no game is stored under the room id, and then
    creates the game with them as sent.  A room always has its game,
    created without settings by [create-room] or [join-room] and never
    deleted: so, whatever the clients send, the game of every room has the
    default 3 rounds and 60 seconds of draw time.  And the game stored
    under any id has [rounds] in 1..10 and [drawTime] in 30..180 unless a
    [start-game] for that id, arriving when no game was stored under it,
    carried a value out of range. *)
Theorem settings_reach_only_fresh_games inputs rid :
  (is_Some (rooms (worldOf (SocketController.run inputs emptyWorld)) !! rid)
   -> exists g,
        games (worldOf (SocketController.run inputs emptyWorld)) !! rid
        = Some g
        /\ rounds g = 3 /\ drawTime g = 60)
  /\ (createdInRange rid inputs emptyWorld ->
      forall g,
        games (worldOf (SocketController.run inputs emptyWorld)) !! rid
        = Some g ->
        1 <= rounds g <= 10 /\ 30 <= drawTime g <= 180).
Proof.
  split.
  - apply (defaults_run inputs emptyWorld).
    intros k [r Hk]. simpl in Hk. rewrite lookup_empty in Hk. discriminate.
  - intros Hc. apply (validAt_run rid inputs emptyWorld Hc).
    intros g Hg. simpl in Hg. rewrite lookup_empty in Hg. discriminate.
Qed.

Lemma settings_reach_only_fresh_games_witness :
  let inputs :=
    (Scenario.lobby ++
     [ (Scenario.envAt 3,
        SocketController.FromClient "a"
          (SocketController.StartGame "r1"
             (Some (mkSettings (Some 50) (Some 5))))) ])%list in
  (exists g,
     games (worldOf (SocketController.run inputs emptyWorld)) !! "r1"
     = Some g
     /\ rounds g = 3 /\ drawTime g = 60)
  /\ (forall g,
        games (worldOf (SocketController.run inputs emptyWorld)) !! "r1"
        = Some g ->
        1 <= rounds g <= 10 /\ 30 <= drawTime g <= 180).
Proof.
  split.
  - apply (proj1 (settings_reach_only_fresh_games
                    (Scenario.lobby ++
                     [ (Scenario.envAt 3,
                        SocketController.FromClient "a"
                          (SocketController.StartGame "r1"
                             (Some (mkSettings (Some 50) (Some 5))))) ])%list
                    "r1")).
    vm_compute. eexists. reflexivity.
  - apply (proj2 (settings_reach_only_fresh_games
                    (Scenario.lobby ++
                     [ (Scenario.envAt 3,
                        SocketController.FromClient "a"
                          (SocketController.StartGame "r1"
                             (Some (mkSettings (Some 50) (Some 5))))) ])%list
                    "r1")).
    vm_compute. repeat split; discriminate.
Defined.

(** C7, as stated, fails: a [start-game] for a room id without a game
    creates and starts one with the settings as sent, here 50 rounds of 5
    seconds. *)
Lemma start_game_settings_not_validated :
  ~ (forall inputs rid g,
       games (worldOf (SocketController.run inputs emptyWorld)) !! rid
       = Some g ->
       isActive g = true -> validConfig g).
Proof.
  intros H.
  specialize
    (H [ (Scenario.envAt 0, SocketController.Connect "x");
         (Scenario.envAt 0,
          SocketController.FromClient "x"
            (SocketController.StartGame "r9"
               (Some (mkSettings (Some 50) (Some 5))))) ]
       "r9"
       (mkGame "r9" 50 0 5 true false None None [] [] [] None []
          (mkSettings (Some 50) (Some 5)))).
  destruct H as [[_ Hr] _]; [vm_compute; reflexivity | reflexivity |].
  simpl in Hr. lia.
Qed.

(** * Used words and word offerings *)

Lemma includes_In w (l : list string) : Game.includes w l = true <-> In w l.
Proof.
  unfold Game.includes. rewrite existsb_exists. split.
  - intros (x & Hx & He). apply String.eqb_eq in He. by subst.
  - intros H. exists w. split; [exact H | apply String.eqb_refl].
Qed.

Section Offerings.

Variable sh : list string -> list string.
Hypothesis sh_sub : forall l w, In w (sh l) -> In w l.

Lemma generateWordOptions_unused used w :
  In w (Game.generateWordOptions sh used) ->
  In w Game.allWords /\ ~ In w used.
Proof.
  unfold Game.generateWordOptions. intros H.
  apply list_elem_of_In in H. apply (subseteq_take 3) in H.
  apply list_elem_of_In, sh_sub, filter_In in H. destruct H as [Ha Hn].
  split; [exact Ha|]. intros Hu. apply includes_In in Hu.
  rewrite Hu in Hn. discriminate.
Qed.

Lemma endRound_usedWords rid games g :
  games !! rid = Some g ->
  exists g', (Game.endRound rid games).2 !! rid = Some g'
             /\ usedWords g' = usedWords g.
Proof.
  intros Hg. unfold Game.endRound. rewrite Hg. simpl.
  rewrite lookup_insert_eq. eauto.
Qed.

Lemma endGame_usedWords rid games g :
  games !! rid = Some g ->
  exists g', (Game.endGame rid games).2 !! rid = Some g'
             /\ usedWords g' = usedWords g.
Proof.
  intros Hg. unfold Game.endGame. rewrite Hg. simpl.
  rewrite lookup_insert_eq. eauto.
Qed.

Lemma selectWord_usedWords rid word now games g :
  games !! rid = Some g ->
  if (Game.selectWord rid word now games).1
  then In word (wordOptions g)
       /\ exists g', (Game.selectWord rid word now games).2 !! rid = Some g'
                     /\ usedWords g' = (usedWords g ++ [word])%list
  else (Game.selectWord rid word now games).2 = games.
Proof.
  intros Hg. unfold Game.selectWord. rewrite Hg.
  destruct (Game.includes word (wordOptions g)) eqn:Hi; simpl;
    [|reflexivity].
  split; [by apply includes_In|].
  rewrite lookup_insert_eq. eauto.
Qed.

Lemma startRound_offering rid games g rd :
  games !! rid = Some g ->
  (Game.startRound sh rid games).1 = Returned (Some rd) ->
  exists g', (Game.startRound sh rid games).2 !! rid = Some g'
             /\ usedWords g' = usedWords g
             /\ wordOptions g' = rd_wordOptions rd
             /\ forall w, In w (rd_wordOptions rd) -> ~ In w (usedWords g).
Proof.
  intros Hg. unfold Game.startRound. rewrite Hg.
  destruct (negb (isActive g)); [discriminate|].
  destruct (_ <? _); [discriminate|].
  destruct (Game.drawerAt _) as [drawer|]; [|discriminate].
  simpl. intros [= <-]. simpl. rewrite lookup_insert_eq.
  eexists. split; [reflexivity|]. repeat split.
  intros w Hw. apply generateWordOptions_unused in Hw. apply Hw.
Qed.

(** Every operation but a successful selection leaves [usedWords] as it
    is; a successful selection appends the selected word. *)
Lemma applyOp_usedWords rid op games g :
  games !! rid = Some g ->
  exists g', applyOp sh rid op games !! rid = Some g'
    /\ (usedWords g' = usedWords g
        \/ exists word now, op = OpSelectWord word now
             /\ (Game.selectWord rid word now games).1 = true
             /\ usedWords g' = (usedWords g ++ [word])%list).
Proof.
  intros Hg.
  destruct op as [user|playerId| |word t|playerId guess t| |]; simpl.
  - unfold Game.addPlayer. rewrite Hg.
    destruct (List.find _ _); simpl; [eauto|].
    rewrite lookup_insert_eq. eauto.
  - unfold Game.removePlayer. rewrite Hg.
    destruct (List.find _ _); simpl; [|eauto].
    destruct (_ && _); simpl.
    + edestruct (endRound_usedWords rid) as (g' & H1 & H2);
        [apply lookup_insert_eq|].
      exists g'. split; [exact H1|]. left. by rewrite H2.
    + rewrite lookup_insert_eq. eauto.
  - unfold Game.startRound. rewrite Hg.
    destruct (negb (isActive g)); simpl; [eauto|].
    destruct (_ <? _); simpl.
    + edestruct (endGame_usedWords rid) as (g' & H1 & H2);
        [apply lookup_insert_eq|].
      exists g'. split; [exact H1|]. left. by rewrite H2.
    + destruct (Game.drawerAt _); simpl; rewrite lookup_insert_eq; eauto.
  - pose proof (selectWord_usedWords rid word t games g Hg) as H.
    destruct (Game.selectWord rid word t games).1 eqn:E.
    + destruct H as (_ & g' & H1 & H2). exists g'. split; [exact H1|].
      right. by exists word, t.
    + rewrite H. eauto.
  - destruct (processGuess_cases rid playerId guess t games) as [H|H].
    + rewrite H. eauto.
    + revert H. unfold Game.processGuess. rewrite Hg.
      destruct (_ || _); [discriminate|].
      destruct (List.find _ _); [|discriminate].
      destruct (_ || _); [discriminate|].
      destruct (_ =? _)%string; [|discriminate].
      intros _. simpl. rewrite lookup_insert_eq.
      eexists. split; [reflexivity|]. left.
      unfold Game.rewardDrawer. simpl.
      destruct (currentDrawer g); [|reflexivity].
      destruct (List.find _ _); reflexivity.
  - edestruct (endRound_usedWords rid) as (g' & H1 & H2); [exact Hg|].
    eauto.
  - edestruct (endGame_usedWords rid) as (g' & H1 & H2); [exact Hg|].
    eauto.
Qed.

Lemma runOps_usedWords rid ops : forall games g,
  games !! rid = Some g ->
  exists g', runOps sh rid ops games !! rid = Some g'
             /\ usedWords g `prefix_of` usedWords g'.
Proof.
  induction ops as [|op ops IH]; intros games g Hg; simpl.
  - exists g. split; [exact Hg | reflexivity].
  - destruct (applyOp_usedWords rid op games g Hg) as (g1 & H1 & Hu).
    destruct (IH _ _ H1) as (g2 & H2 & Hp).
    exists g2. split; [exact H2|].
    etransitivity; [|exact Hp].
    destruct Hu as [->|(word & t & _ & _ & ->)];
      [reflexivity | by apply prefix_app_r].
Qed.

(** C8, as the code has it. Along any sequence of operations on a
    running game [usedWords] only grows; an operation changes it only by
    a successful word selection, which appends exactly the selected
    word; and a round's offering contains no word used so far, so no
    word selected earlier in the game. *)
Theorem usedWords_discipline rid games g :
  games !! rid = Some g ->
  (forall ops, exists g',
      runOps sh rid ops games !! rid = Some g'
      /\ usedWords g `prefix_of` usedWords g')
  /\ (forall op, exists g',
        applyOp sh rid op games !! rid = Some g'
        /\ (usedWords g' = usedWords g
            \/ exists word now, op = OpSelectWord word now
                 /\ (Game.selectWord rid word now games).1 = true
                 /\ usedWords g' = (usedWords g ++ [word])%list))
  /\ (forall word now,
        (Game.selectWord rid word now games).1 = true ->
        exists g', (Game.selectWord rid word now games).2 !! rid = Some g'
                   /\ usedWords g' = (usedWords g ++ [word])%list)
  /\ (forall ops rd,
        (Game.startRound sh rid (runOps sh rid ops games)).1
        = Returned (Some rd) ->
        exists g',
          runOps sh rid ops games !! rid = Some g'
          /\ forall w, In w (rd_wordOptions rd) ->
               ~ In w (usedWords g') /\ ~ In w (usedWords g)).
Proof.
  intros Hg. split; [|split; [|split]].
  - intros ops. by apply runOps_usedWords.
  - intros op. by apply applyOp_usedWords.
  - intros word now Hs.
    pose proof (selectWord_usedWords rid word now games g Hg) as H.
    rewrite Hs in H. apply H.
  - intros ops rd Hrd.
    destruct (runOps_usedWords rid ops games g Hg) as (g' & Hg' & Hp).
    exists g'. split; [exact Hg'|]. intros w Hw.
    destruct (startRound_offering rid _ g' rd Hg' Hrd)
      as (g2 & _ & _ & _ & Hno).
    specialize (Hno w Hw). split; [exact Hno|].
    intros Hu. apply Hno.
    destruct Hp as [k ->]. apply in_or_app. by left.
Qed.

End Offerings.

Lemma usedWords_discipline_witness :
  games (Scenario.after Scenario.waiting) !! "r1" = Some Scenario.waitingGame
  /\ forall ops, exists g',
       runOps (fun l => l) "r1" ops (games (Scenario.after Scenario.waiting))
         !! "r1" = Some g'
       /\ usedWords Scenario.waitingGame `prefix_of` usedWords g'.
Proof.
  split; [vm_compute; reflexivity|].
  apply (usedWords_discipline (fun l => l) (fun l w H => H) "r1"
           (games (Scenario.after Scenario.waiting)) Scenario.waitingGame).
  vm_compute. reflexivity.
Defined.

(** C8, as stated, fails: the drawer sends [select-word] twice in the
    first round and the word is appended twice. *)
Lemma word_appended_twice_in_one_round :
  ~ (forall inputs rid g,
       games (worldOf (SocketController.run inputs emptyWorld)) !! rid
       = Some g ->
       oncePerRound g).
Proof.
  intros H.
  assert (exists g,
            games
              (worldOf
                 (SocketController.run
                    (Scenario.drawing ++
                     [ (Scenario.envAt 11000,
                        SocketController.FromClient "d"
                          (SocketController.SelectWord "r1" "apple")) ])
                    emptyWorld)) !! "r1" = Some g
            /\ usedWords g = ["apple"; "apple"]
            /\ currentRound g = 1) as (g & Hl & Hu & Hc).
  { eexists. split; [vm_compute; reflexivity|]. split; reflexivity. }
  specialize (H _ _ _ Hl). unfold oncePerRound in H.
  rewrite Hu, Hc in H. simpl in H. lia.
Qed.

(** Words that were offered and not picked stay available: "banana" and
    "cat", offered in the first round, are offered again in the second. *)
Lemma unselected_words_offered_again :
  wordOptions <$> games (Scenario.after Scenario.waiting) !! "r1"
  = Some ["apple"; "banana"; "cat"]
  /\ wordOptions <$>
       runOps (fun l => l) "r1"
         [OpSelectWord "apple" 10000; OpEndRound; OpStartRound]
         (games (Scenario.after Scenario.waiting)) !! "r1"
     = Some ["banana"; "cat"; "dog"].
Proof. vm_compute. split; reflexivity. Qed.

(** * Members and players *)

(** [Room.addUser] appends without looking at the ids already present. *)
Lemma addUser_appends rid user (rooms : gmap string RoomRec) room :
  rooms !! rid = Some room ->
  room_users <$> (Room.addUser rid user rooms).2 !! rid
  = Some (room_users room ++ [user])%list.
Proof.
  intros Hr. unfold Room.addUser. rewrite Hr. simpl.
  by rewrite lookup_insert_eq.
Qed.

(** [Game.addPlayer] leaves the registry alone when the id is a player. *)
Lemma addPlayer_idempotent rid user (games : gmap string GameState) g p :
  games !! rid = Some g ->
  List.find (Game.hasId (user_id user)) (players g) = Some p ->
  Game.addPlayer rid user games = (true, games).
Proof. intros Hg Hp. unfold Game.addPlayer. by rewrite Hg, Hp. Qed.

(** A socket that joins a room again is pushed again: whatever the users
    already present, [join-room] appends the new user record. *)
Lemma handleJoinRoom_pushes env sid rid username w room :
  JsString.truthy rid = true -> JsString.truthy username = true ->
  rooms w !! rid = Some room ->
  room_users <$>
    rooms (worldOf (SocketController.handleJoinRoom env sid rid username w))
      !! rid
  = Some (room_users room
          ++ [mkUser sid username
                (SocketController.generateRandomColor env)])%list.
Proof.
  intros Hr Hu Hroom. unfold SocketController.handleJoinRoom.
  rewrite Hr, Hu.
  unfold mbind, M_bind, readRooms, readGames, liftRoom, liftGame, join,
    Room.getRoom, Game.getGame, Room.addUser, worldOf, emit, skip, mret,
    M_ret.
  simpl. rewrite Hroom. simpl. rewrite Hroom. simpl.
  destruct (games w !! rid) as [g|] eqn:Hg; simpl.
  - destruct (Game.addPlayer rid _ (games w)) as [b gs] eqn:Ha. simpl.
    rewrite lookup_insert_eq. simpl.
    destruct (gs !! rid); simpl; by rewrite lookup_insert_eq.
  - destruct (Game.addPlayer rid _ _) as [b gs] eqn:Ha. simpl.
    rewrite lookup_insert_eq. simpl.
    destruct (gs !! rid); simpl; by rewrite lookup_insert_eq.
Qed.

(** * What the handlers emit *)

Section EmitsOnly.

Variable Q : Effect -> Prop.

Lemma emitsOnly_ret {A} (a : A) : emitsOnly Q (mret a).
Proof. intros w. constructor. Qed.

Lemma emitsOnly_bind {A B} (m : M A) (f : A -> M B) :
  emitsOnly Q m -> (forall a, emitsOnly Q (f a)) -> emitsOnly Q (m ≫= f).
Proof.
  intros Hm Hf w. specialize (Hm w).
  unfold mbind, M_bind, effectsOf in *.
  destruct (m w) as [[[a|what] w1] e1]; simpl in *; [|exact Hm].
  specialize (Hf a w1). destruct (f a w1) as [[o w2] e2]. simpl in *.
  apply Forall_app. by split.
Qed.

Lemma emitsOnly_emit t p :
  (forall receivers, Q (Emit t p receivers)) -> emitsOnly Q (emit t p).
Proof. intros H w. repeat constructor. apply H. Qed.

Lemma emitsOnly_readRooms {A} (f : gmap string RoomRec -> A) :
  emitsOnly Q (readRooms f).
Proof. intros w. constructor. Qed.

Lemma emitsOnly_liftRoom {A}
  (f : gmap string RoomRec -> A * gmap string RoomRec) :
  emitsOnly Q (liftRoom f).
Proof.
  intros w. unfold liftRoom, effectsOf. destruct (f (rooms w)).
  constructor.
Qed.

Lemma emitsOnly_liftGame {A}
  (f : gmap string GameState -> A * gmap string GameState) :
  emitsOnly Q (liftGame f).
Proof.
  intros w. unfold liftGame, effectsOf. destruct (f (games w)).
  constructor.
Qed.

Lemma emitsOnly_leaveAll sid : emitsOnly Q (leaveAll sid).
Proof. intros w. constructor. Qed.

Lemma emitsOnly_forEach {A} (l : list A) (f : A -> M unit) :
  (forall x, emitsOnly Q (f x)) -> emitsOnly Q (forEach l f).
Proof.
  intros Hf. induction l as [|x r IH]; simpl.
  - apply emitsOnly_ret.
  - apply emitsOnly_bind; [apply Hf | intros _; exact IH].
Qed.

End EmitsOnly.

(** X21. Whatever the state of the game, a disconnect emits [user-left] and
    nothing else: no [round-ended], no timer. *)
Lemma disconnect_emits_only_user_left env sid :
  emitsOnly isUserLeft
    (SocketController.step env (SocketController.Disconnect sid)).
Proof.
  simpl. apply emitsOnly_bind; [apply emitsOnly_leaveAll | intros _].
  unfold SocketController.handleDisconnect.
  apply emitsOnly_bind; [apply emitsOnly_readRooms | intros all].
  apply emitsOnly_forEach. intros room.
  unfold SocketController.leaveRoom.
  apply emitsOnly_bind; [apply emitsOnly_readRooms | intros [user|]].
  - apply emitsOnly_bind; [apply emitsOnly_liftRoom | intros _].
    apply emitsOnly_bind; [apply emitsOnly_liftGame | intros _].
    apply emitsOnly_emit. intros r. red. eauto.
  - apply emitsOnly_ret.
Qed.

(** [handleEndRound] does not look at [isRoundActive]: with a game in the
    registry it always broadcasts [round-ended] and schedules what comes
    next. *)
Lemma handleEndRound_always_acts sid rid w g :
  JsString.truthy rid = true ->
  games w !! rid = Some g ->
  let res := mkRoundResult (currentWord g) (map Game.scoreEntry (players g)) in
  effectsOf (SocketController.handleEndRound sid rid w)
  = [ Emit (ToOthers rid sid) (PRoundEnded res)
        (recipients (adapter w) (ToOthers rid sid));
      Emit (ToSocket sid) (PRoundEnded res)
        (recipients (adapter w) (ToSocket sid));
      SetTimeout
        (if rounds g <=? currentRound g
         then TEndGame sid rid else TStartRound sid rid) 5000 ].
Proof.
  intros Ht Hg. unfold SocketController.handleEndRound. rewrite Ht.
  unfold mbind, M_bind, readGames, liftGame, Game.getGame, Game.endRound,
    effectsOf, SocketController.emitAll, emit, setTimeout, skip, mret, M_ret.
  simpl. rewrite Hg. simpl. rewrite Hg. simpl.
  rewrite lookup_insert_eq. simpl.
  destruct (rounds g <=? currentRound g); reflexivity.
Qed.

(** A hint is sent to every socket of the room but the requester, and to
    the requester unless it is the drawer: the drawer is left out only when
    the drawer asks. *)
Lemma handleRequestHint_receivers env sid rid w g word :
  JsString.truthy rid = true ->
  games w !! rid = Some g ->
  isRoundActive g = true ->
  currentWord g = Some word -> word <> "" ->
  let hint := Game.getHint word 1 (draws env) in
  effectsOf (SocketController.handleRequestHint env sid rid w)
  = (Emit (ToOthers rid sid) (PHintRevealed hint)
       (elements (members (adapter w) rid ∖ {[sid]}))
     :: (if Game.isDrawer g sid then []
         else [Emit (ToSocket sid) (PHintRevealed hint)
                 (recipients (adapter w) (ToSocket sid))]))%list.
Proof.
  intros Ht Hg Ha Hw Hne. unfold SocketController.handleRequestHint.
  rewrite Ht.
  unfold mbind, M_bind, readGames, Game.getGame, effectsOf, emit, skip,
    mret, M_ret.
  simpl. rewrite Hg, Ha. simpl.
  assert (Hnw : Game.noWord g = false).
  { unfold Game.noWord, JsString.truthy. rewrite Hw.
    destruct (String.eqb_spec word ""); [congruence | reflexivity]. }
  rewrite Hnw, Hw. simpl.
  destruct (Game.isDrawer g sid); reflexivity.
Qed.

Lemma handleRequestHint_drawer_receives env sid rid w g word d :
  JsString.truthy rid = true ->
  games w !! rid = Some g ->
  isRoundActive g = true ->
  currentWord g = Some word -> word <> "" ->
  currentDrawer g = Some d -> d <> sid ->
  d ∈ members (adapter w) rid ->
  exists hint receivers,
    In (Emit (ToOthers rid sid) (PHintRevealed hint) receivers)
      (effectsOf (SocketController.handleRequestHint env sid rid w))
    /\ d ∈ receivers.
Proof.
  intros Ht Hg Ha Hw Hne Hd Hds Hm.
  rewrite (handleRequestHint_receivers env sid rid w g word) by done.
  eexists _, _. split; [left; reflexivity|].
  apply elem_of_elements. set_solver.
Qed.

(** X22. Outside an active round a hint request does nothing. *)
Lemma handleRequestHint_ignored env sid rid w :
  (forall g, games w !! rid = Some g -> isRoundActive g = false) ->
  SocketController.handleRequestHint env sid rid w = (Returned tt, w, []).
Proof.
  intros H. unfold SocketController.handleRequestHint.
  destruct (negb (JsString.truthy rid)); [reflexivity|].
  unfold mbind, M_bind, readGames, Game.getGame, skip, mret, M_ret. simpl.
  destruct (games w !! rid) as [g|] eqn:Hg; [|reflexivity].
  rewrite (H g eq_refl). reflexivity.
Qed.


(** A member who has already guessed and sends the word again has it
    broadcast as a chat message. *)
Lemma repeated_guess_echoed env sid rid message w user g p :
  JsString.truthy rid = true -> JsString.truthy message = true ->
  Room.getUser rid sid (rooms w) = Some user ->
  games w !! rid = Some g ->
  isRoundActive g = true ->
  Game.isDrawer g sid = false ->
  List.find (Game.hasId sid) (players g) = Some p ->
  hasGuessed p = true ->
  effectsOf (SocketController.handleChatMessage env sid rid message w)
  = [ Emit (ToOthers rid sid) (PChatMessage user message (now env) true)
        (recipients (adapter w) (ToOthers rid sid));
      Emit (ToSocket sid) (PChatMessage user message (now env) true)
        (recipients (adapter w) (ToSocket sid)) ].
Proof.
  intros Ht Hm Hu Hg Ha Hnd Hp Hhg.
  assert (Hr : Game.processGuess rid sid message (now env) (games w)
               = (Game.noGuess, games w)).
  { apply processGuess_rejects. unfold rejected.
    rewrite Hg. do 4 right. left. eauto. }
  unfold SocketController.handleChatMessage,
    SocketController.getUserFromSocket, SocketController.regularChat,
    SocketController.emitAll.
  rewrite Ht, Hm.
  unfold mbind, M_bind, readRooms, readGames, liftGame, Game.getGame,
    effectsOf, emit, setTimeout, skip, mret, M_ret.
  simpl. rewrite Hu. simpl. rewrite Hg. simpl. rewrite Ha, Hnd. simpl.
  rewrite Hr. simpl. rewrite Hg. simpl. rewrite Ha, Hnd. reflexivity.
Qed.

(** * The registries on disconnect *)

Lemma removeUser_last rid sid (rooms : gmap string RoomRec) room u :
  rooms !! rid = Some room ->
  room_users room = [u] ->
  user_id u = sid ->
  (Room.removeUser rid sid rooms).2 !! rid = None.
Proof.
  intros Hr Hu Hid. unfold Room.removeUser. rewrite Hr, Hu. simpl.
  unfold Room.hasId. rewrite Hid, String.eqb_refl. simpl.
  apply lookup_delete_eq.
Qed.

Lemma leaveRoom_unfold sid room w :
  SocketController.leaveRoom sid room w
  = match Room.getUser (room_id room) sid (rooms w) with
    | None => (Returned tt, w, [])
    | Some user =>
        (Returned tt,
         mkWorld (Room.removeUser (room_id room) sid (rooms w)).2
           (Game.removePlayer (room_id room) sid (games w)).2 (adapter w),
         [Emit (ToOthers (room_id room) sid) (PUserLeft user)
            (recipients (adapter w) (ToOthers (room_id room) sid))])
    end.
Proof.
  unfold SocketController.leaveRoom, mbind, M_bind, readRooms, liftRoom,
    liftGame, emit, skip, mret, M_ret.
  destruct (Room.getUser _ _ _); [|reflexivity].
  destruct (Room.removeUser _ _ _) as [a r]. simpl.
  destruct (Game.removePlayer _ _ _) as [b g]. reflexivity.
Qed.

Lemma removeUser_other k rid sid (rooms : gmap string RoomRec) :
  k <> rid -> (Room.removeUser k sid rooms).2 !! rid = rooms !! rid.
Proof.
  intros Hne. unfold Room.removeUser.
  destruct (rooms !! k); [|reflexivity].
  destruct (List.find _ _); [|reflexivity].
  destruct (_ =? _)%nat; simpl.
  - by rewrite lookup_delete_ne.
  - by rewrite lookup_insert_ne.
Qed.

Lemma forEach_cons_leave sid room l w :
  worldOf (forEach (room :: l) (SocketController.leaveRoom sid) w)
  = worldOf (forEach l (SocketController.leaveRoom sid)
               (worldOf (SocketController.leaveRoom sid room w))).
Proof.
  simpl. unfold mbind, M_bind, worldOf. rewrite leaveRoom_unfold.
  destruct (Room.getUser _ _ _); simpl;
    by destruct (forEach l _ _) as [[o w2] e2].
Qed.

Lemma forEach_leave_other sid rid l : forall w,
  (forall r, r ∈ l -> room_id r <> rid) ->
  rooms (worldOf (forEach l (SocketController.leaveRoom sid) w)) !! rid
  = rooms w !! rid.
Proof.
  induction l as [|room l IH]; intros w Hl; [reflexivity|].
  rewrite forEach_cons_leave, IH by (intros r Hr; apply Hl; by right).
  rewrite leaveRoom_unfold. unfold worldOf.
  destruct (Room.getUser _ _ _); simpl; [|reflexivity].
  apply removeUser_other. apply Hl. by left.
Qed.

Lemma forEach_app_leave sid l1 : forall l2 w,
  worldOf (forEach (l1 ++ l2) (SocketController.leaveRoom sid) w)
  = worldOf (forEach l2 (SocketController.leaveRoom sid)
               (worldOf (forEach l1 (SocketController.leaveRoom sid) w))).
Proof.
  induction l1 as [|room l1 IH]; intros l2 w; [reflexivity|].
  rewrite <- app_comm_cons, !forEach_cons_leave. apply IH.
Qed.

Lemma handleDisconnect_world sid w :
  worldOf (SocketController.handleDisconnect sid w)
  = worldOf (forEach (Room.getAllRooms (rooms w))
               (SocketController.leaveRoom sid) w).
Proof.
  unfold SocketController.handleDisconnect, mbind, M_bind, readRooms,
    worldOf.
  simpl. by destruct (forEach _ _ w) as [[o w2] e2].
Qed.

(** When the only user of a room disconnects, the room leaves the room
    registry. *)
Lemma disconnect_last_user_deletes_room sid rid w room u :
  keyedById (rooms w) ->
  rooms w !! rid = Some room ->
  room_users room = [u] -> user_id u = sid ->
  rooms (worldOf (SocketController.handleDisconnect sid w)) !! rid = None.
Proof.
  intros Hk Hroom Hu Hid.
  assert (Hin : (rid, room) ∈ map_to_list (rooms w))
    by by apply elem_of_map_to_list.
  apply list_elem_of_split in Hin. destruct Hin as (l1 & l2 & Hl).
  pose proof (NoDup_fst_map_to_list (rooms w)) as Hnd.
  rewrite Hl, fmap_app, fmap_cons in Hnd. simpl in Hnd.
  apply NoDup_app in Hnd. destruct Hnd as (_ & Hn1 & Hnd).
  apply NoDup_cons in Hnd. destruct Hnd as [Hn2 _].
  assert (H1 : forall r, r ∈ l1.*2 -> room_id r <> rid).
  { intros r Hr. apply list_elem_of_fmap in Hr.
    destruct Hr as ([k r'] & -> & Hkr). simpl.
    assert (Hm : rooms w !! k = Some r').
    { apply elem_of_map_to_list. rewrite Hl. apply elem_of_app. by left. }
    rewrite (Hk _ _ Hm). intros ->. apply (Hn1 rid); [|by left].
    apply list_elem_of_fmap. by exists (rid, r'). }
  assert (H2 : forall r, r ∈ l2.*2 -> room_id r <> rid).
  { intros r Hr. apply list_elem_of_fmap in Hr.
    destruct Hr as ([k r'] & -> & Hkr). simpl.
    assert (Hm : rooms w !! k = Some r').
    { apply elem_of_map_to_list. rewrite Hl. apply elem_of_app. right.
      by right. }
    rewrite (Hk _ _ Hm). intros ->. apply Hn2.
    apply list_elem_of_fmap. by exists (rid, r'). }
  rewrite handleDisconnect_world. unfold Room.getAllRooms.
  rewrite Hl, fmap_app, fmap_cons. simpl.
  rewrite forEach_app_leave, forEach_cons_leave.
  rewrite forEach_leave_other by exact H2.
  set (w1 := worldOf (forEach l1.*2 (SocketController.leaveRoom sid) w)).
  assert (Hw1 : rooms w1 !! rid = Some room)
    by (unfold w1; by rewrite forEach_leave_other).
  rewrite leaveRoom_unfold. rewrite (Hk _ _ Hroom).
  unfold Room.getUser. rewrite Hw1, Hu. simpl.
  unfold Room.hasId. rewrite Hid, String.eqb_refl. simpl.
  by apply (removeUser_last rid sid (rooms w1) room u).
Qed.

Lemma present_update (games : gmap string GameState) rid k g g' :
  is_Some (games !! rid) -> games !! k = Some g ->
  rounds g' = rounds g -> drawTime g' = drawTime g ->
  is_Some (<[k := g']> games !! rid).
Proof.
  intros Hs _ _ _. destruct (decide (k = rid)) as [->|Hne].
  - rewrite lookup_insert_eq. eauto.
  - by rewrite lookup_insert_ne.
Qed.

Lemma present_create (games : gmap string GameState) rid k s :
  is_Some (games !! rid) -> True ->
  is_Some ((Game.createGame k s games).2 !! rid).
Proof.
  intros Hs _. unfold Game.createGame. simpl.
  destruct (decide (k = rid)) as [->|Hne].
  - rewrite lookup_insert_eq. eauto.
  - by rewrite lookup_insert_ne.
Qed.

Lemma any_input_ok i : inputSettingsOk (fun _ => True) i.
Proof. destruct i as [| ? []| |]; exact I. Qed.

(** No input ever removes an entry of the game registry: [deleteGame] is
    never called. *)
Lemma step_never_deletes env i w rid :
  is_Some (games w !! rid) ->
  is_Some (games (worldOf (SocketController.step env i w)) !! rid).
Proof.
  apply (step_keeps (fun gs => is_Some (gs !! rid)) (fun _ => True)).
  - intros gs k g g'. apply present_update.
  - intros gs k s. apply present_create.
  - exact I.
  - apply any_input_ok.
Qed.

(** X20. No handler and no timer ever takes a game out of the registry:
    a game that is stored stays stored along every run, whatever its room
    becomes. *)
Lemma games_never_deleted inputs w rid :
  is_Some (games w !! rid) ->
  is_Some (games (worldOf (SocketController.run inputs w)) !! rid).
Proof.
  apply (run_keeps (fun gs => is_Some (gs !! rid)) (fun _ => True)).
  - intros gs k g g'. apply present_update.
  - intros gs k s. apply present_create.
  - exact I.
  - apply Forall_forall. intros [env i] _. apply any_input_ok.
Qed.

(** The last user of a room disconnects: whatever the rest of the state,
    the room entry goes and the game entry stays. *)
Lemma last_user_disconnect env sid rid w room u :
  keyedById (rooms w) ->
  rooms w !! rid = Some room ->
  room_users room = [u] -> user_id u = sid ->
  is_Some (games w !! rid) ->
  rooms (worldOf (SocketController.step env
                    (SocketController.Disconnect sid) w)) !! rid = None
  /\ is_Some
       (games (worldOf (SocketController.step env
                          (SocketController.Disconnect sid) w)) !! rid).
Proof.
  intros Hk Hroom Hu Hid Hg. split; [|by apply step_never_deletes].
  simpl. unfold mbind, M_bind, leaveAll.
  set (w1 := mkWorld (rooms w) (games w)
               ((fun s => s ∖ {[sid]}) <$> adapter w)).
  pose proof (disconnect_last_user_deletes_room sid rid w1 room u
                Hk Hroom Hu Hid) as H.
  unfold worldOf in *.
  destruct (SocketController.handleDisconnect sid w1) as [[o w2] e2].
  exact H.
Qed.

(** C1. Dan is alone in room [r1] and disconnects: the room leaves the room
    registry, the game of the room stays in the game registry. *)
Theorem last_user_leaves_game_stays :
  let w := Scenario.after Scenario.solo in
  let w' :=
    worldOf (SocketController.step (Scenario.envAt 9)
               (SocketController.Disconnect "d") w) in
  room_users <$> rooms w !! "r1" = Some [Scenario.dan]
  /\ rooms w' !! "r1" = None
  /\ players <$> games w' !! "r1" = Some []
  /\ size (games w') = 1%nat.
Proof. vm_compute. repeat split. Qed.

(** * Chat and guesses *)

(** C2. Ann has guessed the word and sends it again: the text goes to the
    whole room as an ordinary chat message. *)
Theorem repeated_correct_guess_is_broadcast :
  let w := Scenario.after Scenario.guessed in
  (Scenario.gameOf w ≫= currentWord) = Some "apple"
  /\ isRoundActive <$> Scenario.gameOf w = Some true
  /\ Scenario.gameOf w ≫= currentDrawer = Some "d"
  /\ Room.getUser "r1" "a" (rooms w) = Some Scenario.ann
  /\ (hasGuessed <$>
        (Scenario.gameOf w ≫= fun g =>
           List.find (Game.hasId "a") (players g))) = Some true
  /\ JsString.trim (JsString.toLowerCase " Apple ") = "apple"
  /\ effectsOf
       (SocketController.handleChatMessage (Scenario.envAt 21000) "a" "r1"
          " Apple " w)
     = [ Emit (ToOthers "r1" "a")
           (PChatMessage Scenario.ann " Apple " 21000 true) ["b"; "d"];
         Emit (ToSocket "a")
           (PChatMessage Scenario.ann " Apple " 21000 true) ["a"] ].
Proof. vm_compute. repeat split. Qed.

(** * Ending a round *)

(** C3. The drawer has not picked a word yet ([isRoundActive] is false) and
    a member sends [end-round]: the word options are wiped, [round-ended] is
    broadcast and the next round is scheduled. *)
Theorem endRound_without_active_round_acts :
  let w := Scenario.after Scenario.waiting in
  let r := SocketController.handleEndRound "a" "r1" w in
  isRoundActive <$> Scenario.gameOf w = Some false
  /\ wordOptions <$> Scenario.gameOf w = Some ["apple"; "banana"; "cat"]
  /\ wordOptions <$> Scenario.gameOf (worldOf r) = Some []
  /\ (Game.endRound "r1" (games w)).2 <> games w
  /\ effectsOf r
     = let res :=
         mkRoundResult None
           [ mkScoreEntry "d" "Dan" 0; mkScoreEntry "a" "Ann" 0;
             mkScoreEntry "b" "Bob" 0 ] in
       [ Emit (ToOthers "r1" "a") (PRoundEnded res) ["b"; "d"];
         Emit (ToSocket "a") (PRoundEnded res) ["a"];
         SetTimeout (TStartRound "a" "r1") 5000 ].
Proof.
  cbv zeta. split; [by vm_compute|]. split; [by vm_compute|].
  split; [by vm_compute|]. split; [|by vm_compute].
  intros H. apply (f_equal (fun gs => wordOptions <$> gs !! "r1")) in H.
  vm_compute in H. discriminate.
Qed.

(** * Joining twice *)

(** C4. Ann, already in the room, sends [join-room] again: she is twice in
    [users] and once in [players]. *)
Theorem second_join_duplicates_user :
  let w := Scenario.after Scenario.lobby in
  let w' :=
    worldOf (SocketController.handleJoinRoom (Scenario.envAt 4) "a" "r1"
               "Ann2" w) in
  (map user_id <$> (room_users <$> rooms w !! "r1")) = Some ["d"; "a"; "b"]
  /\ (map user_id <$> (room_users <$> rooms w' !! "r1"))
     = Some ["d"; "a"; "b"; "a"]
  /\ (map player_id <$> (players <$> games w' !! "r1"))
     = Some ["d"; "a"; "b"].
Proof. vm_compute. repeat split. Qed.

(** * The drawer leaves *)

(** C6. The drawer disconnects, once while drawing and once before picking
    a word: in both cases the only emission is [user-left] and nothing is
    scheduled. *)
Theorem drawer_disconnect_emits_no_round_end :
  let leave w :=
    SocketController.step (Scenario.envAt 30000)
      (SocketController.Disconnect "d") w in
  let wd := Scenario.after Scenario.drawing in
  let ww := Scenario.after Scenario.waiting in
  (Scenario.gameOf wd ≫= currentDrawer) = Some "d"
  /\ isRoundActive <$> Scenario.gameOf wd = Some true
  /\ effectsOf (leave wd)
     = [ Emit (ToOthers "r1" "d") (PUserLeft Scenario.dan) ["a"; "b"] ]
  /\ isRoundActive <$> Scenario.gameOf (worldOf (leave wd)) = Some false
  /\ (Scenario.gameOf ww ≫= currentDrawer) = Some "d"
  /\ isRoundActive <$> Scenario.gameOf ww = Some false
  /\ effectsOf (leave ww)
     = [ Emit (ToOthers "r1" "d") (PUserLeft Scenario.dan) ["a"; "b"] ]
  /\ wordOptions <$> Scenario.gameOf (worldOf (leave ww))
     = Some ["apple"; "banana"; "cat"]
  /\ (Scenario.gameOf (worldOf (leave ww)) ≫= currentDrawer) = Some "d".
Proof. vm_compute. repeat split. Qed.

(** * Hints *)

(** C9. Ann, a guesser, asks for a hint while Dan draws: Dan is among the
    receivers of [hint-revealed]. *)
Theorem hint_reaches_drawer :
  let w := Scenario.after Scenario.drawing in
  (Scenario.gameOf w ≫= currentDrawer) = Some "d"
  /\ isRoundActive <$> Scenario.gameOf w = Some true
  /\ effectsOf
       (SocketController.handleRequestHint (Scenario.envAt 15000) "a" "r1" w)
     = [ Emit (ToOthers "r1" "a") (PHintRevealed "a _ _ _ _") ["b"; "d"];
         Emit (ToSocket "a") (PHintRevealed "a _ _ _ _") ["a"] ].
Proof. vm_compute. repeat split. Qed.

(** * How the games of the registry evolve *)

Lemma createGame_newGame rid s (games : gmap string GameState) :
  Game.createGame rid s games = (newGame rid s, <[rid := newGame rid s]> games).
Proof. reflexivity. Qed.

Lemma evolves_refl (games : gmap string GameState) : evolves games games.
Proof. intros rid g Hg. left. exists g. split; [exact Hg | apply rtc_refl]. Qed.

Lemma evolves_trans (g1 g2 g3 : gmap string GameState) :
  evolves g1 g2 -> evolves g2 g3 -> evolves g1 g3.
Proof.
  intros H12 H23 rid c Hc.
  destruct (H23 rid c Hc) as [(b & Hb & Hbc)|(s & Hs)]; [|right; eauto].
  destruct (H12 rid b Hb) as [(a & Ha & Hab)|(s & Hs)].
  - left. exists a. split; [exact Ha | by etransitivity].
  - right. exists s. by etransitivity.
Qed.

Lemma evolves_insert (games : gmap string GameState) rid g g' :
  games !! rid = Some g -> rtc GameStep g g' ->
  evolves games (<[rid := g']> games).
Proof.
  intros Hg Hs r x Hx. destruct (decide (rid = r)) as [->|Hne].
  - rewrite lookup_insert_eq in Hx. injection Hx as <-. left. eauto.
  - rewrite lookup_insert_ne in Hx by exact Hne. left.
    exists x. split; [exact Hx | apply rtc_refl].
Qed.

Lemma evolves_create (games : gmap string GameState) rid s :
  evolves games (Game.createGame rid s games).2.
Proof.
  rewrite createGame_newGame. simpl. intros r x Hx.
  destruct (decide (rid = r)) as [->|Hne].
  - rewrite lookup_insert_eq in Hx. injection Hx as <-. right.
    exists s. apply rtc_refl.
  - rewrite lookup_insert_ne in Hx by exact Hne. left.
    exists x. split; [exact Hx | apply rtc_refl].
Qed.

Lemma evolves_addPlayer rid user (games : gmap string GameState) :
  evolves games (Game.addPlayer rid user games).2.
Proof.
  unfold Game.addPlayer. destruct (games !! rid) as [g|] eqn:Hg;
    [|apply evolves_refl].
  destruct (List.find _ _) eqn:Hf; [apply evolves_refl|]. simpl.
  eapply evolves_insert; [exact Hg|]. apply rtc_once.
  by apply (StepAddPlayer g user).
Qed.

Lemma evolves_endRound rid (games : gmap string GameState) :
  evolves games (Game.endRound rid games).2.
Proof.
  unfold Game.endRound. destruct (games !! rid) as [g|] eqn:Hg;
    [|apply evolves_refl].
  simpl. eapply evolves_insert; [exact Hg|]. apply rtc_once.
  apply (StepEndRound g).
Qed.

Lemma evolves_removePlayer rid playerId (games : gmap string GameState) :
  evolves games (Game.removePlayer rid playerId games).2.
Proof.
  unfold Game.removePlayer. destruct (games !! rid) as [g|] eqn:Hg;
    [|apply evolves_refl].
  destruct (List.find _ _); [|apply evolves_refl].
  assert (H1 : evolves games (<[rid := removedPlayer playerId g]> games)).
  { eapply evolves_insert; [exact Hg|]. apply rtc_once.
    apply StepRemovePlayer. }
  fold (removedPlayer playerId g).
  destruct (_ && _); simpl; [|exact H1].
  eapply evolves_trans; [exact H1 | apply evolves_endRound].
Qed.

Lemma evolves_startGame rid (games : gmap string GameState) :
  evolves games (Game.startGame rid games).2.
Proof.
  unfold Game.startGame. destruct (games !! rid) as [g|] eqn:Hg;
    [|apply evolves_refl].
  destruct (isActive g) eqn:Ha; [apply evolves_refl|]. simpl.
  eapply evolves_insert; [exact Hg|]. apply rtc_once.
  by apply (StepStartGame g).
Qed.

Lemma evolves_endGame rid (games : gmap string GameState) :
  evolves games (Game.endGame rid games).2.
Proof.
  unfold Game.endGame. destruct (games !! rid) as [g|] eqn:Hg;
    [|apply evolves_refl].
  simpl. eapply evolves_insert; [exact Hg|]. apply rtc_once.
  apply (StepEndGame g).
Qed.

Lemma evolves_startRound sh rid (games : gmap string GameState) :
  evolves games (Game.startRound sh rid games).2.
Proof.
  unfold Game.startRound. destruct (games !! rid) as [g|] eqn:Hg;
    [|apply evolves_refl].
  destruct (isActive g) eqn:Ha; simpl; [|apply evolves_refl].
  fold (nextRound g).
  assert (H1 : GameStep g (nextRound g)) by by apply StepNextRound.
  destruct (_ <? _).
  - eapply evolves_trans; [|apply evolves_endGame].
    eapply evolves_insert; [exact Hg | by apply rtc_once].
  - destruct (Game.drawerAt (nextRound g)) as [drawer|] eqn:Hd; simpl.
    + eapply evolves_insert; [exact Hg|].
      eapply rtc_l; [exact H1|]. apply rtc_once.
      by apply (StepBeginRound sh drawer (nextRound g)).
    + eapply evolves_insert; [exact Hg | by apply rtc_once].
Qed.

Lemma evolves_selectWord rid word t (games : gmap string GameState) :
  evolves games (Game.selectWord rid word t games).2.
Proof.
  unfold Game.selectWord. destruct (games !! rid) as [g|] eqn:Hg;
    [|apply evolves_refl].
  destruct (Game.includes word (wordOptions g)) eqn:Hi; simpl;
    [|apply evolves_refl].
  eapply evolves_insert; [exact Hg|]. apply rtc_once.
  by apply (StepSelectWord word t g).
Qed.

Lemma evolves_processGuess rid playerId guess t
  (games : gmap string GameState) :
  evolves games (Game.processGuess rid playerId guess t games).2.
Proof.
  unfold Game.processGuess. destruct (games !! rid) as [g|] eqn:Hg;
    [|apply evolves_refl].
  destruct (isRoundActive g) eqn:Ha; simpl; [|apply evolves_refl].
  destruct (Game.noWord g); [apply evolves_refl|].
  destruct (List.find _ _) as [p|] eqn:Hp; [|apply evolves_refl].
  destruct (hasGuessed p) eqn:Hh; simpl; [apply evolves_refl|].
  destruct (Game.isDrawer g playerId) eqn:Hd; [apply evolves_refl|].
  destruct (_ =? _)%string; [|apply evolves_refl]. simpl.
  eapply evolves_insert; [exact Hg|]. apply rtc_once.
  by apply (StepGuess playerId t g p).
Qed.

(** *** Every handler lets the registry evolve *)

Section Evolution.

Variable games0 : gmap string GameState.

Lemma evolving_liftGame {A}
  (f : gmap string GameState -> A * gmap string GameState) :
  (forall games, evolves games (f games).2) -> preserves (evolves games0) (liftGame f).
Proof.
  intros Hf. apply preserves_liftGame. intros games Hg.
  eapply evolves_trans; [exact Hg | apply Hf].
Qed.

Ltac evolve :=
  repeat first
    [ apply preserves_ret
    | apply preserves_emit
    | apply preserves_setTimeout
    | apply preserves_readRooms
    | apply preserves_readGames
    | apply preserves_liftRoom
    | apply preserves_join
    | apply preserves_leaveAll
    | apply evolving_liftGame; intros ?
    | apply preserves_bind; [|intros ?]
    | match goal with
      | |- preserves _ (if ?b then _ else _) => destruct b
      | |- preserves _ (match ?x with _ => _ end) => destruct x
      end ].

Lemma evolving_handleEndRound sid rid :
  preserves (evolves games0) (SocketController.handleEndRound sid rid).
Proof.
  unfold SocketController.handleEndRound, SocketController.emitAll.
  evolve. apply evolves_endRound.
Qed.

Lemma evolving_handleStartRound env sid rid :
  preserves (evolves games0) (SocketController.handleStartRound env sid rid).
Proof.
  unfold SocketController.handleStartRound, SocketController.emitAll.
  evolve. apply preserves_liftGameThrowing. intros games Hg.
  eapply evolves_trans; [exact Hg | apply evolves_startRound].
Qed.

Lemma evolving_step env i : preserves (evolves games0) (SocketController.step env i).
Proof.
  destruct i as [sid|sid ev|sid|a]; simpl.
  - apply preserves_join.
  - destruct ev; simpl.
    + unfold SocketController.handleCreateRoom. evolve.
      * apply evolves_create.
      * apply evolves_addPlayer.
    + unfold SocketController.handleJoinRoom. evolve.
      * apply evolves_create.
      * apply evolves_addPlayer.
    + unfold SocketController.handleDrawing. evolve.
    + unfold SocketController.handleClearCanvas, SocketController.emitAll.
      evolve.
    + unfold SocketController.handleChatMessage,
        SocketController.getUserFromSocket, SocketController.regularChat,
        SocketController.emitAll.
      evolve. apply evolves_processGuess.
    + unfold SocketController.handleStartGame, SocketController.emitAll.
      evolve.
      * apply evolves_create.
      * apply evolves_startGame.
    + apply evolving_handleStartRound.
    + unfold SocketController.handleSelectWord. evolve.
      apply evolves_selectWord.
    + unfold SocketController.handleRequestHint. evolve.
    + apply evolving_handleEndRound.
  - apply preserves_bind; [apply preserves_leaveAll|intros _].
    unfold SocketController.handleDisconnect. evolve.
    apply preserves_forEach. intros room.
    unfold SocketController.leaveRoom. evolve.
    apply evolves_removePlayer.
  - destruct a; simpl.
    + apply evolving_handleEndRound.
    + evolve; apply evolving_handleEndRound.
    + apply evolving_handleStartRound.
    + unfold SocketController.emitAll. evolve. apply evolves_endGame.
Qed.

Lemma evolving_run inputs : preserves (evolves games0) (SocketController.run inputs).
Proof.
  induction inputs as [|[env i] rest IH]; simpl.
  - apply preserves_ret.
  - apply preserves_bind; [apply evolving_step | intros _; exact IH].
Qed.

End Evolution.

Lemma run_evolves inputs w :
  evolves (games w) (games (worldOf (SocketController.run inputs w))).
Proof. apply (evolving_run (games w) inputs w). apply evolves_refl. Qed.

(** A property that new games have and every mutation keeps holds of every
    game the server ever stores. *)
Lemma always_from_empty (Q : string -> GameState -> Prop) :
  (forall rid s, Q rid (newGame rid s)) ->
  (forall rid g g', GameStep g g' -> Q rid g -> Q rid g') ->
  forall inputs rid g,
    games (worldOf (SocketController.run inputs emptyWorld)) !! rid = Some g ->
    Q rid g.
Proof.
  intros Hnew Hstep inputs rid g Hg.
  destruct (run_evolves inputs emptyWorld rid g Hg)
    as [(g0 & H0 & _)|(s & Hs)].
  - simpl in H0. rewrite lookup_empty in H0. discriminate.
  - specialize (Hnew rid s). clear Hg.
    induction Hs as [|a b c Hab Hbc IH]; [exact Hnew|].
    apply IH. by apply (Hstep rid a b).
Qed.

(** * What holds of every stored game *)

Lemma ids_updateFirst playerId f (ps : list Player) :
  (forall p, player_id (f p) = player_id p) ->
  map player_id (Game.updateFirst playerId f ps) = map player_id ps.
Proof.
  intros Hf. induction ps as [|p r IH]; simpl; [reflexivity|].
  destruct (Game.hasId playerId p); simpl; [by rewrite Hf | by rewrite IH].
Qed.

Lemma removeFirst_sublist playerId (ps : list Player) :
  Game.removeFirst playerId ps `sublist_of` ps.
Proof.
  induction ps as [|p r IH]; simpl; [constructor|].
  destruct (Game.hasId playerId p).
  - by apply sublist_cons.
  - by apply sublist_skip.
Qed.

Lemma Forall_removeFirst (Q : Player -> Prop) playerId (ps : list Player) :
  Forall Q ps -> Forall Q (Game.removeFirst playerId ps).
Proof.
  induction 1 as [|p r Hp Hr IH]; simpl; [constructor|].
  destruct (Game.hasId playerId p); [exact Hr | by constructor].
Qed.

Lemma find_none_not_id a (ps : list Player) :
  List.find (Game.hasId a) ps = None -> ~ In a (map player_id ps).
Proof.
  intros Hf Hin. apply in_map_iff in Hin. destruct Hin as (p & Hp & Hin).
  pose proof (find_none _ _ Hf p Hin) as H. unfold Game.hasId in H.
  rewrite Hp, String.eqb_refl in H. discriminate.
Qed.

Lemma rewardDrawer_players g :
  players (Game.rewardDrawer g) = players g
  \/ exists d, players (Game.rewardDrawer g)
               = Game.updateFirst d (Game.addScore 25) (players g).
Proof.
  unfold Game.rewardDrawer. destruct (currentDrawer g) as [d|]; [|by left].
  destruct (List.find _ _); [right; by exists d | by left].
Qed.

Lemma rewardDrawer_fields g :
  roomId (Game.rewardDrawer g) = roomId g
  /\ currentRound (Game.rewardDrawer g) = currentRound g
  /\ isRoundActive (Game.rewardDrawer g) = isRoundActive g
  /\ currentDrawer (Game.rewardDrawer g) = currentDrawer g
  /\ currentWord (Game.rewardDrawer g) = currentWord g
  /\ wordOptions (Game.rewardDrawer g) = wordOptions g
  /\ guessedPlayers (Game.rewardDrawer g) = guessedPlayers g
  /\ roundStartTime (Game.rewardDrawer g) = roundStartTime g.
Proof.
  unfold Game.rewardDrawer. destruct (currentDrawer g) as [d|] eqn:Hd;
    [|by rewrite Hd].
  destruct (List.find _ _); simpl; by rewrite ?Hd.
Qed.

Lemma identified_new rid s : identified rid (newGame rid s).
Proof. split; [reflexivity | constructor]. Qed.

Lemma identified_step rid g g' :
  GameStep g g' -> identified rid g -> identified rid g'.
Proof.
  intros Hs [Hid Hnd].
  destruct Hs as [g user Hf|g pid|g|g Ha|g|g Ha|sh drawer g Hd|word t g Hi
                 |pid t g p Ha Hp Hh Hd]; simpl.
  - split; [exact Hid|]. simpl. rewrite map_app. simpl.
    apply NoDup_app. split; [exact Hnd|]. split.
    + intros x Hx Hx'. apply list_elem_of_In in Hx.
      apply list_elem_of_singleton in Hx'. subst x.
      by apply (find_none_not_id _ _ Hf).
    + apply NoDup_singleton.
  - split; [exact Hid|]. simpl.
    eapply sublist_NoDup; [exact Hnd|].
    apply (fmap_sublist player_id), removeFirst_sublist.
  - by split.
  - split; [exact Hid|]. simpl. rewrite map_map. exact Hnd.
  - by split.
  - by split.
  - split; [exact Hid|]. simpl. rewrite map_map. exact Hnd.
  - by split.
  - unfold identified, guessedBy. cbv zeta.
    rewrite (proj1 (rewardDrawer_fields _)). split; [exact Hid|].
    match goal with |- context [Game.rewardDrawer ?x] =>
      destruct (rewardDrawer_players x) as [->|[d ->]] end; simpl;
      rewrite ?ids_updateFirst by reflexivity; exact Hnd.
Qed.

Lemma basePoints_pos k : 25 <= Game.basePoints k.
Proof.
  unfold Game.basePoints.
  repeat (destruct (_ =? _); [lia|]). lia.
Qed.

Lemma timeBonus_nonneg t g : 0 <= Game.timeBonus t g.
Proof. unfold Game.timeBonus. lia. Qed.

Lemma scores_updateFirst playerId n (ps : list Player) :
  0 <= n ->
  Forall (fun p => 0 <= score p) ps ->
  Forall (fun p => 0 <= score p) (Game.updateFirst playerId (Game.addScore n) ps).
Proof.
  intros Hn. induction 1 as [|p r Hp Hr IH]; simpl; [constructor|].
  destruct (Game.hasId playerId p); constructor; try done. simpl. lia.
Qed.

Lemma scores_markGuessed playerId (ps : list Player) :
  Forall (fun p => 0 <= score p) ps ->
  Forall (fun p => 0 <= score p) (Game.updateFirst playerId Game.markGuessed ps).
Proof.
  induction 1 as [|p r Hp Hr IH]; simpl; [constructor|].
  destruct (Game.hasId playerId p); constructor; done.
Qed.

Lemma counted_new rid s : counted (newGame rid s).
Proof. split; [simpl; lia | constructor]. Qed.

Lemma counted_step g g' : GameStep g g' -> counted g -> counted g'.
Proof.
  intros Hs [Hr Hsc].
  destruct Hs as [g user Hf|g pid|g|g Ha|g|g Ha|sh drawer g Hd|word t g Hi
                 |pid t g p Ha Hp Hh Hd]; simpl.
  - split; [exact Hr|]. simpl. apply Forall_app. split; [exact Hsc|].
    repeat constructor. simpl. lia.
  - split; [exact Hr|]. simpl.
    by apply Forall_removeFirst.
  - by split.
  - split; [simpl; lia|]. simpl. apply Forall_fmap.
    apply Forall_true. intros p. simpl. lia.
  - by split.
  - split; [simpl; lia | exact Hsc].
  - split; [exact Hr|]. simpl. apply Forall_fmap.
    eapply Forall_impl; [exact Hsc|]. by intros p Hp.
  - by split.
  - unfold counted, guessedBy. cbv zeta.
    match goal with |- context [Game.rewardDrawer ?x] => set (g3 := x) end.
    destruct (rewardDrawer_fields g3) as (_ & -> & _).
    split; [exact Hr|].
    assert (H0 : Forall (fun p => 0 <= score p) (players g3)).
    { unfold g3. simpl.
      apply scores_updateFirst; [|by apply scores_markGuessed].
      match goal with
      | |- 0 <= Game.basePoints ?k + Game.timeBonus ?t ?x =>
          pose proof (basePoints_pos k);
          pose proof (timeBonus_nonneg t x); lia
      end. }
    destruct (rewardDrawer_players g3) as [->|[d ->]];
      [exact H0 | by apply scores_updateFirst].
Qed.

Lemma coherent_new rid s : coherent (newGame rid s).
Proof.
  split; [discriminate|]. split; [discriminate | simpl; lia].
Qed.

Lemma coherent_step g g' : GameStep g g' -> coherent g -> coherent g'.
Proof.
  intros Hs (Hw & Hd & Hl).
  destruct Hs as [g user Hf|g pid|g|g Ha|g|g Ha|sh drawer g Hdr|word t g Hi
                 |pid t g p Ha Hp Hh Hnd]; simpl.
  - by split.
  - by split.
  - split; [discriminate|]. split; [exact Hd | simpl; lia].
  - by split.
  - split; [discriminate|]. by split.
  - by split.
  - split; [discriminate|]. split; [by intros d _ []|]. simpl.
    unfold Game.generateWordOptions. rewrite length_take. lia.
  - split; [|by split]. intros _. exists word, t.
    split; [reflexivity|]. split; [|reflexivity].
    simpl. by apply includes_In.
  - unfold coherent, guessedBy. cbv zeta.
    match goal with |- context [Game.rewardDrawer ?x] =>
      destruct (rewardDrawer_fields x)
        as (_ & _ & -> & -> & -> & -> & -> & ->)
    end.
    simpl. split; [exact Hw|]. split; [|exact Hl].
    intros d Hcd Hin. apply in_app_or in Hin. destruct Hin as [Hin|[<-|[]]].
    + by apply (Hd d).
    + unfold Game.isDrawer in Hnd. rewrite Hcd, String.eqb_refl in Hnd.
      discriminate.
Qed.

(** X1. Every game the server stores is kept under its own room id and its
    players have distinct ids. *)
Theorem stored_games_identified inputs rid g :
  games (worldOf (SocketController.run inputs emptyWorld)) !! rid = Some g ->
  identified rid g.
Proof.
  apply (always_from_empty identified).
  - apply identified_new.
  - apply identified_step.
Qed.

Lemma stored_games_identified_witness :
  identified "r1" Scenario.drawingGame.
Proof.
  apply (stored_games_identified Scenario.drawing "r1" Scenario.drawingGame).
  vm_compute. reflexivity.
Defined.

(** X2. In every stored game the round counter is never negative and no player
    has a negative score. *)
Theorem stored_games_counted inputs rid g :
  games (worldOf (SocketController.run inputs emptyWorld)) !! rid = Some g ->
  counted g.
Proof.
  apply (always_from_empty (fun _ => counted)).
  - apply counted_new.
  - intros _. apply counted_step.
Qed.

Lemma stored_games_counted_witness : counted Scenario.drawingGame.
Proof.
  apply (stored_games_counted Scenario.drawing "r1" Scenario.drawingGame).
  vm_compute. reflexivity.
Defined.

(** X3. In every stored game an active round has a current word taken from the
    options on offer and a start time, the current drawer is not among the
    players who guessed, and at most three words are on offer. *)
Theorem stored_games_coherent inputs rid g :
  games (worldOf (SocketController.run inputs emptyWorld)) !! rid = Some g ->
  coherent g.
Proof.
  apply (always_from_empty (fun _ => coherent)).
  - apply coherent_new.
  - intros _. apply coherent_step.
Qed.

Lemma stored_games_coherent_witness : coherent Scenario.drawingGame.
Proof.
  apply (stored_games_coherent Scenario.drawing "r1" Scenario.drawingGame).
  vm_compute. reflexivity.
Defined.

(** * What holds of every stored room *)

Section RoomsKept.

Variable P : gmap string RoomRec -> Prop.

Lemma preservesRooms_ret {A} (a : A) : preservesRooms P (mret a).
Proof. intros w H. exact H. Qed.

Lemma preservesRooms_bind {A B} (m : M A) (f : A -> M B) :
  preservesRooms P m -> (forall a, preservesRooms P (f a)) ->
  preservesRooms P (m ≫= f).
Proof.
  intros Hm Hf w H. specialize (Hm w H).
  unfold mbind, M_bind, worldOf in *.
  destruct (m w) as [[[a|what] w1] e1]; simpl in *; [|exact Hm].
  specialize (Hf a w1 Hm). destruct (f a w1) as [[o w2] e2]. exact Hf.
Qed.

Lemma preservesRooms_emit t p : preservesRooms P (emit t p).
Proof. intros w H. exact H. Qed.

Lemma preservesRooms_setTimeout a ms : preservesRooms P (setTimeout a ms).
Proof. intros w H. exact H. Qed.

Lemma preservesRooms_readRooms {A} (f : gmap string RoomRec -> A) :
  preservesRooms P (readRooms f).
Proof. intros w H. exact H. Qed.

Lemma preservesRooms_readGames {A} (f : gmap string GameState -> A) :
  preservesRooms P (readGames f).
Proof. intros w H. exact H. Qed.

Lemma preservesRooms_liftGame {A}
  (f : gmap string GameState -> A * gmap string GameState) :
  preservesRooms P (liftGame f).
Proof.
  intros w H. unfold liftGame, worldOf. destruct (f (games w)). exact H.
Qed.

Lemma preservesRooms_liftGameThrowing {A}
  (f : gmap string GameState -> Outcome A * gmap string GameState) :
  preservesRooms P (liftGameThrowing f).
Proof.
  intros w H. unfold liftGameThrowing, worldOf. destruct (f (games w)).
  exact H.
Qed.

Lemma preservesRooms_join sid room : preservesRooms P (join sid room).
Proof. intros w H. exact H. Qed.

Lemma preservesRooms_leaveAll sid : preservesRooms P (leaveAll sid).
Proof. intros w H. exact H. Qed.

Lemma preservesRooms_liftRoom {A}
  (f : gmap string RoomRec -> A * gmap string RoomRec) :
  (forall rooms, P rooms -> P (f rooms).2) -> preservesRooms P (liftRoom f).
Proof.
  intros Hf w H. unfold liftRoom, worldOf. specialize (Hf _ H).
  destruct (f (rooms w)). exact Hf.
Qed.

Lemma preservesRooms_forEach {A} (l : list A) (f : A -> M unit) :
  (forall x, preservesRooms P (f x)) -> preservesRooms P (forEach l f).
Proof.
  intros Hf. induction l as [|x r IH]; simpl.
  - apply preservesRooms_ret.
  - apply preservesRooms_bind; [apply Hf | intros _; exact IH].
Qed.

End RoomsKept.

Lemma populated_insert (rooms : gmap string RoomRec) k r :
  populated rooms -> room_id r = k -> room_users r <> [] ->
  populated (<[k := r]> rooms).
Proof.
  intros Hp Hid Hu j x Hx. destruct (decide (k = j)) as [->|Hne].
  - rewrite lookup_insert_eq in Hx. by injection Hx as <-.
  - rewrite lookup_insert_ne in Hx by exact Hne. by apply Hp.
Qed.

Lemma populated_addUser rid user (rooms : gmap string RoomRec) :
  populated rooms -> populated (Room.addUser rid user rooms).2.
Proof.
  intros Hp. unfold Room.addUser.
  destruct (rooms !! rid) as [room|] eqn:Hr; [|exact Hp]. simpl.
  apply populated_insert; [exact Hp | apply (Hp _ _ Hr) |]. simpl.
  intros H. by apply app_eq_nil in H as [_ ?].
Qed.

Lemma populated_removeUser rid sid (rooms : gmap string RoomRec) :
  populated rooms -> populated (Room.removeUser rid sid rooms).2.
Proof.
  intros Hp. unfold Room.removeUser.
  destruct (rooms !! rid) as [room|] eqn:Hr; [|exact Hp].
  destruct (List.find _ _); [|exact Hp].
  destruct (Nat.eqb_spec (length (Room.removeFirst sid (room_users room))) 0)
    as [He|He]; simpl.
  - intros j x Hx. destruct (decide (rid = j)) as [->|Hne].
    + by rewrite lookup_delete_eq in Hx.
    + rewrite lookup_delete_ne in Hx by exact Hne. by apply Hp.
  - apply populated_insert; [exact Hp | apply (Hp _ _ Hr) |]. simpl.
    intros H. by rewrite H in He.
Qed.

Lemma populated_addDrawingData rid ev (rooms : gmap string RoomRec) :
  populated rooms -> populated (Room.addDrawingData rid ev rooms).2.
Proof.
  intros Hp. unfold Room.addDrawingData.
  destruct (rooms !! rid) as [room|] eqn:Hr; [|exact Hp]. simpl.
  apply populated_insert; [exact Hp | apply (Hp _ _ Hr) | apply (Hp _ _ Hr)].
Qed.

Lemma populated_clearDrawingData rid (rooms : gmap string RoomRec) :
  populated rooms -> populated (Room.clearDrawingData rid rooms).2.
Proof.
  intros Hp. unfold Room.clearDrawingData.
  destruct (rooms !! rid) as [room|] eqn:Hr; [|exact Hp]. simpl.
  apply populated_insert; [exact Hp | apply (Hp _ _ Hr) | apply (Hp _ _ Hr)].
Qed.

(** The room registry after [create-room]. *)
Lemma handleCreateRoom_rooms env sid roomName username w :
  rooms (worldOf (SocketController.handleCreateRoom env sid roomName
                    username w))
  = if negb (JsString.truthy roomName) || negb (JsString.truthy username)
    then rooms w
    else <[uuid env :=
             mkRoom (uuid env) roomName
               [mkUser sid username (SocketController.generateRandomColor env)]
               [] (now env)]> (rooms w).
Proof.
  unfold SocketController.handleCreateRoom.
  destruct (_ || _); [reflexivity|].
  unfold mbind, M_bind, liftRoom, liftGame, join, emit, worldOf,
    Room.createRoom, Room.addUser.
  simpl. rewrite lookup_insert_eq. simpl.
  destruct (Game.addPlayer _ _ _). simpl.
  apply insert_insert_eq.
Qed.

Ltac keepRooms :=
  repeat first
    [ apply preservesRooms_ret
    | apply preservesRooms_emit
    | apply preservesRooms_setTimeout
    | apply preservesRooms_readRooms
    | apply preservesRooms_readGames
    | apply preservesRooms_liftGame
    | apply preservesRooms_liftGameThrowing
    | apply preservesRooms_join
    | apply preservesRooms_leaveAll
    | apply preservesRooms_liftRoom; intros ? ?
    | apply preservesRooms_bind; [|intros ?]
    | match goal with
      | |- preservesRooms _ (if ?b then _ else _) => destruct b
      | |- preservesRooms _ (match ?x with _ => _ end) => destruct x
      end ].

Lemma populated_handleEndRound sid rid :
  preservesRooms populated (SocketController.handleEndRound sid rid).
Proof.
  unfold SocketController.handleEndRound, SocketController.emitAll.
  keepRooms.
Qed.

Lemma populated_handleStartRound env sid rid :
  preservesRooms populated (SocketController.handleStartRound env sid rid).
Proof.
  unfold SocketController.handleStartRound, SocketController.emitAll.
  keepRooms. by apply populated_clearDrawingData.
Qed.

Lemma populated_step env i :
  preservesRooms populated (SocketController.step env i).
Proof.
  destruct i as [sid|sid ev|sid|a]; simpl.
  - apply preservesRooms_join.
  - destruct ev; simpl.
    + intros w Hp. rewrite handleCreateRoom_rooms.
      destruct (_ || _); [exact Hp|].
      apply populated_insert; [exact Hp | reflexivity | discriminate].
    + unfold SocketController.handleJoinRoom. keepRooms.
      by apply populated_addUser.
    + unfold SocketController.handleDrawing. keepRooms.
      by apply populated_addDrawingData.
    + unfold SocketController.handleClearCanvas, SocketController.emitAll.
      keepRooms. by apply populated_clearDrawingData.
    + unfold SocketController.handleChatMessage,
        SocketController.getUserFromSocket, SocketController.regularChat,
        SocketController.emitAll.
      keepRooms.
    + unfold SocketController.handleStartGame, SocketController.emitAll.
      keepRooms. by apply populated_clearDrawingData.
    + apply populated_handleStartRound.
    + unfold SocketController.handleSelectWord. keepRooms.
    + unfold SocketController.handleRequestHint. keepRooms.
    + apply populated_handleEndRound.
  - apply preservesRooms_bind; [apply preservesRooms_leaveAll|intros _].
    unfold SocketController.handleDisconnect. keepRooms.
    apply preservesRooms_forEach. intros room.
    unfold SocketController.leaveRoom. keepRooms.
    by apply populated_removeUser.
  - destruct a; simpl.
    + apply populated_handleEndRound.
    + keepRooms; apply populated_handleEndRound.
    + apply populated_handleStartRound.
    + unfold SocketController.emitAll. keepRooms.
Qed.

Lemma populated_run inputs :
  preservesRooms populated (SocketController.run inputs).
Proof.
  induction inputs as [|[env i] rest IH]; simpl.
  - apply preservesRooms_ret.
  - apply preservesRooms_bind; [apply populated_step | intros _; exact IH].
Qed.



(** * The room model *)

Lemma addDrawingData_log rid ev (rooms : gmap string RoomRec) room :
  rooms !! rid = Some room ->
  exists room',
    (Room.addDrawingData rid ev rooms).2 !! rid = Some room'
    /\ room_drawingData room' = (room_drawingData room ++ [ev])%list
    /\ room_users room' = room_users room.
Proof.
  intros Hr. unfold Room.addDrawingData. rewrite Hr. simpl.
  rewrite lookup_insert_eq. eauto.
Qed.

Lemma addDrawingData_fold rid evs : forall (rooms : gmap string RoomRec) room,
  rooms !! rid = Some room ->
  exists room',
    fold_left (fun rs ev => (Room.addDrawingData rid ev rs).2) evs rooms
      !! rid = Some room'
    /\ room_drawingData room' = (room_drawingData room ++ evs)%list
    /\ room_users room' = room_users room.
Proof.
  induction evs as [|ev evs IH]; intros rooms room Hr; simpl.
  - exists room. by rewrite app_nil_r.
  - destruct (addDrawingData_log rid ev rooms room Hr) as (r1 & H1 & Hd & Hu).
    destruct (IH _ _ H1) as (r2 & H2 & Hd2 & Hu2).
    exists r2. split; [exact H2|]. rewrite Hd2, Hd, Hu2, Hu.
    by rewrite <- app_assoc.
Qed.

(** X5. After a clear, the drawing log of a room holds exactly the events added
    since, in the order they came, and the users of the room are the
    same. *)
Theorem drawing_log_replay rid evs (rooms : gmap string RoomRec) room :
  rooms !! rid = Some room ->
  let rooms' :=
    fold_left (fun rs ev => (Room.addDrawingData rid ev rs).2) evs
      (Room.clearDrawingData rid rooms).2 in
  Room.getDrawingData rid rooms' = evs
  /\ forall sid, Room.getUser rid sid rooms' = Room.getUser rid sid rooms.
Proof.
  intros Hr rooms'.
  assert (Hc : exists room0,
             (Room.clearDrawingData rid rooms).2 !! rid = Some room0
             /\ room_drawingData room0 = []
             /\ room_users room0 = room_users room).
  { unfold Room.clearDrawingData. rewrite Hr. simpl.
    rewrite lookup_insert_eq. eauto. }
  destruct Hc as (room0 & H0 & Hd0 & Hu0).
  destruct (addDrawingData_fold rid evs _ _ H0) as (room' & H' & Hd & Hu).
  unfold Room.getDrawingData, Room.getUser. fold rooms' in H'.
  rewrite H', Hr, Hd, Hd0, Hu, Hu0. done.
Qed.

Lemma drawing_log_replay_witness :
  Room.getDrawingData "r1"
    (fold_left (fun rs ev => (Room.addDrawingData "r1" ev rs).2)
       [ mkDrawingEvent "draw" (mkDrawingData "draw" [(0, 0); (10, 10)]
                                  "#000000" 2) "d" 5 ]
       (Room.clearDrawingData "r1" (rooms (Scenario.after Scenario.lobby))).2)
  = [ mkDrawingEvent "draw" (mkDrawingData "draw" [(0, 0); (10, 10)]
                               "#000000" 2) "d" 5 ].
Proof.
  eapply (drawing_log_replay "r1" _ (rooms (Scenario.after Scenario.lobby))).
  vm_compute. reflexivity.
Defined.

(** X6. On a room id that is not in the registry every operation of the room
    model reports failure and leaves the registry as it is. *)
Theorem room_operations_on_missing_room rid (rooms : gmap string RoomRec) :
  rooms !! rid = None ->
  Room.getRoom rid rooms = None
  /\ (forall user, Room.addUser rid user rooms = (false, rooms))
  /\ (forall sid, Room.removeUser rid sid rooms = (None, rooms))
  /\ (forall ev, Room.addDrawingData rid ev rooms = (false, rooms))
  /\ Room.getDrawingData rid rooms = []
  /\ Room.clearDrawingData rid rooms = (false, rooms)
  /\ (forall sid, Room.getUser rid sid rooms = None).
Proof.
  intros Hr.
  unfold Room.getRoom, Room.addUser, Room.removeUser, Room.addDrawingData,
    Room.getDrawingData, Room.clearDrawingData, Room.getUser.
  rewrite Hr. repeat split.
Qed.

Lemma room_operations_on_missing_room_witness :
  Room.addUser "nowhere" Scenario.ann (rooms (Scenario.after Scenario.lobby))
  = (false, rooms (Scenario.after Scenario.lobby)).
Proof.
  apply (room_operations_on_missing_room "nowhere"
           (rooms (Scenario.after Scenario.lobby))).
  vm_compute. reflexivity.
Defined.

Lemma removeFirst_user_perm sid (us : list User) u :
  List.find (Room.hasId sid) us = Some u ->
  us ≡ₚ u :: Room.removeFirst sid us.
Proof.
  induction us as [|x r IH]; simpl; [discriminate|].
  destruct (Room.hasId sid x) eqn:Hx.
  - by intros [= ->].
  - intros Hf. rewrite (IH Hf) at 1. apply Permutation_swap.
Qed.

(** X7. Removing a user who is in the room returns the first user with that
    id and takes exactly that entry out; the room goes when it was the only
    entry, and otherwise keeps its drawing log. *)
Theorem removeUser_present rid sid (rooms : gmap string RoomRec) room u :
  rooms !! rid = Some room ->
  List.find (Room.hasId sid) (room_users room) = Some u ->
  (Room.removeUser rid sid rooms).1 = Some u
  /\ user_id u = sid
  /\ room_users room ≡ₚ u :: Room.removeFirst sid (room_users room)
  /\ match (Room.removeUser rid sid rooms).2 !! rid with
     | None => length (room_users room) = 1%nat
     | Some room' =>
         room_users room' = Room.removeFirst sid (room_users room)
         /\ room_users room' <> []
         /\ room_drawingData room' = room_drawingData room
         /\ room_id room' = room_id room
     end.
Proof.
  intros Hr Hf.
  pose proof (removeFirst_user_perm sid _ u Hf) as Hp.
  unfold Room.removeUser. rewrite Hr, Hf.
  split; [by destruct (_ =? _)%nat|].
  split.
  { apply find_some in Hf. destruct Hf as [_ Hf]. unfold Room.hasId in Hf.
    by apply String.eqb_eq in Hf. }
  split; [exact Hp|].
  destruct (Nat.eqb_spec (length (Room.removeFirst sid (room_users room))) 0)
    as [He|He]; simpl.
  - rewrite lookup_delete_eq. apply Permutation_length in Hp.
    simpl in Hp. lia.
  - rewrite lookup_insert_eq. simpl. repeat split.
    intros H. by rewrite H in He.
Qed.

Lemma removeUser_present_witness :
  (Room.removeUser "r1" "a" (rooms (Scenario.after Scenario.lobby))).1
  = Some Scenario.ann.
Proof.
  apply (proj1 (removeUser_present "r1" "a"
                  (rooms (Scenario.after Scenario.lobby))
                  (mkRoom "r1" "Room" [Scenario.dan; Scenario.ann; Scenario.bob]
                     [] 0)
                  Scenario.ann ltac:(vm_compute; reflexivity)
                  ltac:(vm_compute; reflexivity))).
Defined.

(** * The REST controller *)

(** X8. The detail endpoint and the existence endpoint agree: a room id is
    answered with 404 exactly when it is reported as not existing, and when
    it is answered with 200 the user count is the number of users sent. *)
Theorem rest_lookup_agrees rid (rooms : gmap string RoomRec) :
  (status (RoomController.getRoomById rid rooms) = 404
   <-> body (RoomController.checkRoomExists rid rooms) = BExists false)
  /\ (status (RoomController.getRoomById rid rooms) = 200
      <-> body (RoomController.checkRoomExists rid rooms) = BExists true)
  /\ forall ok detail,
       body (RoomController.getRoomById rid rooms) = BRoom ok detail ->
       ok = true
       /\ rdt_userCount detail = length (rdt_users detail)
       /\ Some (rdt_users detail) = room_users <$> rooms !! rid.
Proof.
  unfold RoomController.getRoomById, RoomController.checkRoomExists,
    Room.getRoom.
  destruct (rooms !! rid) as [room|]; simpl.
  - split; [split; discriminate|]. split; [by split|].
    intros ok detail [= <- <-]. by simpl.
  - split; [by split|]. split; [split; discriminate|].
    intros ok detail H. discriminate.
Qed.

(** X9. The room list has one entry per stored room, and every listed room can
    be fetched by its listed id with the same user count. *)
Theorem rest_list_agrees (rooms : gmap string RoomRec) :
  keyedById rooms ->
  exists listed,
    RoomController.getAllRooms rooms = mkResponse 200 (BRooms true listed)
    /\ length listed = size rooms
    /\ (forall rid room, rooms !! rid = Some room ->
          In (RoomController.format room) listed)
    /\ forall entry, In entry listed ->
         exists room,
           rooms !! rs_id entry = Some room
           /\ RoomController.getRoomById (rs_id entry) rooms
              = mkResponse 200
                  (BRoom true
                     (mkRoomDetail (rs_id entry) (rs_name entry)
                        (room_users room) (rs_userCount entry)
                        (rs_createdAt entry))).
Proof.
  intros Hk. eexists. split; [reflexivity|]. split.
  { rewrite length_map. unfold Room.getAllRooms.
    by rewrite length_fmap, length_map_to_list. }
  split.
  - intros rid room Hr. apply in_map. unfold Room.getAllRooms.
    apply list_elem_of_In, list_elem_of_fmap. exists (rid, room).
    split; [reflexivity | by apply elem_of_map_to_list].
  - intros entry Hin. apply in_map_iff in Hin.
    destruct Hin as (room & <- & Hin). unfold Room.getAllRooms in Hin.
    apply list_elem_of_In, list_elem_of_fmap in Hin.
    destruct Hin as ([k r] & -> & Hkr). simpl.
    apply elem_of_map_to_list in Hkr. pose proof (Hk _ _ Hkr) as Hid.
    exists r. rewrite Hid. split; [exact Hkr|].
    unfold RoomController.getRoomById, Room.getRoom. rewrite Hkr.
    by rewrite Hid.
Qed.

Lemma rest_list_agrees_witness :
  exists listed,
    RoomController.getAllRooms (rooms (Scenario.after Scenario.lobby))
    = mkResponse 200 (BRooms true listed)
    /\ length listed = size (rooms (Scenario.after Scenario.lobby)).
Proof.
  destruct (rest_list_agrees (rooms (Scenario.after Scenario.lobby)))
    as (listed & H1 & H2 & _).
  - intros k r Hr.
    apply (populated_run Scenario.lobby emptyWorld); [|exact Hr].
    intros k0 r0 H0. simpl in H0. rewrite lookup_empty in H0. discriminate.
  - exists listed. by split.
Defined.

(** * Masks and hints *)

Lemma chars_length w : length (JsString.chars w) = String.length w.
Proof.
  unfold JsString.chars. induction w as [|c r IH]; simpl; [done|].
  by rewrite IH.
Qed.

Lemma truthy_length w : JsString.truthy w = negb (String.length w =? 0)%nat.
Proof. by destruct w. Qed.

Lemma chars_joinSpace l :
  unspaced (JsString.chars (JsString.joinSpace l)) = l.
Proof.
  unfold JsString.chars.
  induction l as [|c r IH]; [reflexivity|].
  destruct r as [|d r]; [reflexivity|].
  change (JsString.joinSpace (c :: d :: r))
    with (String c (String " "%char (JsString.joinSpace (d :: r)))).
  change (c :: unspaced
                 (list_ascii_of_string (JsString.joinSpace (d :: r)))
          = c :: d :: r).
  by rewrite IH.
Qed.

Lemma joinSpace_length l :
  String.length (JsString.joinSpace l) = (2 * length l - 1)%nat.
Proof.
  induction l as [|c r IH]; [reflexivity|].
  destruct r as [|d r]; [reflexivity|].
  change (JsString.joinSpace (c :: d :: r))
    with (String c (String " "%char (JsString.joinSpace (d :: r)))).
  change (S (S (String.length (JsString.joinSpace (d :: r))))
          = (2 * length (c :: d :: r) - 1)%nat).
  rewrite IH. simpl. lia.
Qed.

Lemma mask_chars w :
  map (fun _ : ascii => "_"%char) (JsString.chars w)
  = repeat "_"%char (String.length w).
Proof.
  unfold JsString.chars. induction w as [|c r IH]; simpl; [done|].
  by rewrite IH.
Qed.

(** X10. The mask sent to the guessers depends on the length of the word
    only: two words of the same length have the same mask, made of one
    blank per character separated by single spaces, with no letter of the
    word in it. *)
Theorem masked_word_shows_only_length w1 w2 :
  String.length w1 = String.length w2 ->
  Game.getMaskedWord w1 = Game.getMaskedWord w2
  /\ String.length (Game.getMaskedWord w1) = (2 * String.length w1 - 1)%nat
  /\ revealed (unspaced (JsString.chars (Game.getMaskedWord w1))) = [].
Proof.
  intros Hl. unfold Game.getMaskedWord.
  rewrite !truthy_length, !mask_chars, <- Hl.
  destruct (String.length w1) as [|n] eqn:Hn; [done|].
  change (negb (negb (S n =? 0)%nat)) with false. cbv iota.
  split; [reflexivity|]. split.
  - by rewrite joinSpace_length, repeat_length.
  - rewrite chars_joinSpace. unfold revealed.
    generalize (S n). intros k. induction k as [|k IH]; [done|].
    simpl. exact IH.
Qed.

Lemma masked_word_shows_only_length_witness :
  Game.getMaskedWord "apple" = Game.getMaskedWord "house".
Proof.
  apply (proj1 (masked_word_shows_only_length "apple" "house" eq_refl)).
Defined.

Lemma pickIndices_length len k draws : forall acc,
  (length acc <= k)%nat ->
  (length (Game.pickIndices len k draws acc) <= k)%nat.
Proof.
  induction draws as [|d r IH]; intros acc Ha; simpl.
  - by destruct (_ && _).
  - destruct (_ && _) eqn:Hc; [|exact Ha].
    destruct (existsb _ _); apply IH; [exact Ha|].
    apply andb_true_iff in Hc. destruct Hc as [Hc _].
    apply Nat.ltb_lt in Hc. rewrite length_app. simpl. lia.
Qed.

Lemma revealed_imap_from (p : nat -> bool) (cs : list ascii) : forall k,
  (length
     (revealed (imap (fun i c => if p (k + i)%nat then c else "_"%char) cs))
   <= length (List.filter p (seq k (length cs))))%nat.
Proof.
  induction cs as [|c r IH]; intros k; [done|].
  rewrite imap_cons.
  rewrite (imap_ext _ (fun i c => if p (S k + i)%nat then c else "_"%char))
    by (intros i x _; simpl; by rewrite Nat.add_succ_r).
  specialize (IH (S k)). unfold revealed in *.
  change (seq k (length (c :: r))) with (k :: seq (S k) (length r)).
  rewrite Nat.add_0_r. simpl List.filter.
  destruct (p k); simpl in *.
  - destruct (negb (Ascii.eqb c "_")); simpl; lia.
  - lia.
Qed.

Lemma revealed_imap (p : nat -> bool) (cs : list ascii) :
  (length (revealed (imap (fun i c => if p i then c else "_"%char) cs))
   <= length (List.filter p (seq 0 (length cs))))%nat.
Proof. apply (revealed_imap_from p cs 0). Qed.

Lemma hint_letters (p : nat -> bool) (cs : list ascii) :
  Forall2 (fun h c => h = "_"%char \/ h = c)
    (imap (fun i c => if p i then c else "_"%char) cs) cs.
Proof.
  revert p. induction cs as [|c r IH]; intros p; [constructor|].
  rewrite imap_cons. constructor.
  - destruct (p 0%nat); auto.
  - apply (IH (fun i => p (S i))).
Qed.

(** X11. A hint has one character per character of the word, each either
    the blank or the letter of the word at that place, and shows at most
    [revealCount] letters; with nothing to reveal it is the mask. *)
Theorem hint_reveals_at_most word revealCount draws :
  let shown :=
    unspaced (JsString.chars (Game.getHint word revealCount draws)) in
  Forall2 (fun h c => h = "_"%char \/ h = c) shown (JsString.chars word)
  /\ (length (revealed shown) <= revealCount)%nat
  /\ Game.getHint word 0 draws = Game.getMaskedWord word.
Proof.
  unfold Game.getHint, Game.getMaskedWord.
  destruct word as [|c0 r0]; [simpl; repeat split; [constructor|lia]|].
  change (negb (JsString.truthy (String c0 r0))) with false. cbv iota zeta.
  set (word := String c0 r0).
  rewrite chars_joinSpace. split; [apply hint_letters|]. split.
  - etransitivity; [apply revealed_imap|].
    set (idx := Game.pickIndices _ _ _ _).
    transitivity (length idx).
    + apply NoDup_incl_length.
      * apply Stdlib.Lists.List.NoDup_filter, Stdlib.Lists.List.seq_NoDup.
      * intros i Hi. apply filter_In in Hi. destruct Hi as [_ Hi].
        apply existsb_exists in Hi. destruct Hi as (j & Hj & E).
        apply Nat.eqb_eq in E. by subst.
    + apply pickIndices_length. simpl. lia.
  - assert (Hp : Game.pickIndices (length (JsString.chars word)) 0 draws []
                 = []) by (by destruct draws).
    rewrite Hp. f_equal.
    generalize (JsString.chars word). intros cs.
    assert (H : forall (f : nat -> nat),
               imap (fun i c => if existsb (Nat.eqb (f i)) [] then c
                                else "_"%char) cs
               = map (fun _ => "_"%char) cs).
    { induction cs as [|c r IH]; intros f; [done|].
      rewrite imap_cons. simpl. f_equal. apply (IH (fun i => f (S i))). }
    apply (H (fun i => i)).
Qed.

(** * Word offerings *)

Lemma allWords_NoDup : NoDup Game.allWords.
Proof. apply (bool_decide_unpack _). vm_compute. exact I. Qed.

(** X12. When [shuffle] permutes the available words, an offering has at
    most three words, all different, all from the word bank and none used
    before; and it is shorter than three only when it holds every word
    still available. *)
Theorem word_options_offering (sh : list string -> list string) used :
  (forall l, sh l ≡ₚ l) ->
  (length (Game.generateWordOptions sh used) <= 3)%nat
  /\ NoDup (Game.generateWordOptions sh used)
  /\ (forall w, In w (Game.generateWordOptions sh used) ->
        In w Game.allWords /\ ~ In w used)
  /\ ((length (Game.generateWordOptions sh used) < 3)%nat ->
      forall w, In w Game.allWords -> ~ In w used ->
        In w (Game.generateWordOptions sh used)).
Proof.
  intros Hsh. unfold Game.generateWordOptions.
  set (avail := List.filter (fun w => negb (Game.includes w used))
                  Game.allWords).
  assert (Hnd : NoDup (sh avail)).
  { rewrite (Hsh avail). unfold avail.
    apply NoDup_ListNoDup, Stdlib.Lists.List.NoDup_filter, NoDup_ListNoDup,
      allWords_NoDup. }
  split; [rewrite length_take; lia|]. split.
  { rewrite <- (take_drop 3 (sh avail)) in Hnd.
    by apply NoDup_app in Hnd as [? _]. }
  split.
  - intros w Hw. apply list_elem_of_In in Hw.
    apply (subseteq_take 3) in Hw. rewrite (Hsh avail) in Hw.
    apply list_elem_of_In, filter_In in Hw. destruct Hw as [Ha Hn].
    split; [exact Ha|]. intros Hu. apply includes_In in Hu.
    rewrite Hu in Hn. discriminate.
  - intros Hlen w Ha Hu. rewrite length_take in Hlen.
    rewrite take_ge by lia.
    apply list_elem_of_In. rewrite (Hsh avail). apply list_elem_of_In.
    apply filter_In. split; [exact Ha|].
    destruct (Game.includes w used) eqn:E; [|reflexivity].
    apply includes_In in E. contradiction.
Qed.

Lemma word_options_offering_witness :
  NoDup (Game.generateWordOptions (fun l => l) ["apple"]).
Proof.
  exact (proj1 (proj2 (word_options_offering (fun l => l) ["apple"]
                         (fun l => Permutation_refl l)))).
Defined.

(** * The final ranking *)

Lemma insertByScore_perm p l : Game.insertByScore p l ≡ₚ p :: l.
Proof.
  induction l as [|q r IH]; simpl; [reflexivity|].
  destruct (score q <=? score p); [reflexivity|].
  rewrite IH. apply Permutation_swap.
Qed.

Lemma sortByScore_perm ps : Game.sortByScore ps ≡ₚ ps.
Proof.
  unfold Game.sortByScore. induction ps as [|p r IH]; simpl; [reflexivity|].
  rewrite insertByScore_perm. by rewrite IH.
Qed.

Lemma insertByScore_descending p l :
  descending l -> descending (Game.insertByScore p l).
Proof.
  unfold descending. induction 1 as [|q r Hs IH Hq]; simpl.
  - constructor; constructor.
  - destruct (Z.leb_spec (score q) (score p)) as [Hle|Hlt].
    + constructor; [by constructor|].
      constructor; [exact Hle|].
      eapply Forall_impl; [exact Hq|]. simpl. intros x Hx. lia.
    + constructor; [exact IH|].
      rewrite insertByScore_perm. constructor; [lia | exact Hq].
Qed.

Lemma sortByScore_descending ps : descending (Game.sortByScore ps).
Proof.
  unfold Game.sortByScore. induction ps as [|p r IH]; simpl.
  - constructor.
  - by apply insertByScore_descending.
Qed.

(** X13. [endGame] ranks a copy of the players: the scores it returns are
    those of the players, each once, in descending order; the winner is the
    first of them, with a score no player beats, and there is none exactly
    when the game has no player.  The game is left inactive, its player
    list as it was. *)
Theorem endGame_ranks rid (games : gmap string GameState) g :
  games !! rid = Some g ->
  exists ranked,
    (Game.endGame rid games).1
    = Some (mkGameResult (head ranked) (map Game.scoreEntry ranked))
    /\ ranked ≡ₚ players g
    /\ descending ranked
    /\ (forall w p, head ranked = Some w -> In p (players g) ->
          score p <= score w)
    /\ (head ranked = None <-> players g = [])
    /\ exists g',
         (Game.endGame rid games).2 !! rid = Some g'
         /\ isActive g' = false /\ isRoundActive g' = false
         /\ players g' = players g.
Proof.
  intros Hg. unfold Game.endGame. rewrite Hg. simpl.
  exists (Game.sortByScore (players g)).
  pose proof (sortByScore_perm (players g)) as Hp.
  pose proof (sortByScore_descending (players g)) as Hd.
  split; [reflexivity|]. split; [exact Hp|]. split; [exact Hd|].
  split; [|split].
  - intros w p Hw Hin.
    destruct (Game.sortByScore (players g)) as [|x r] eqn:E;
      [discriminate|].
    injection Hw as ->. apply list_elem_of_In in Hin.
    rewrite <- Hp in Hin. apply elem_of_cons in Hin.
    destruct Hin as [->|Hin]; [lia|].
    unfold descending in Hd. apply StronglySorted_inv in Hd.
    destruct Hd as [_ Hall]. rewrite Forall_forall in Hall.
    by apply Hall.
  - split.
    + intros Hh. destruct (Game.sortByScore (players g)) eqn:E;
        [|discriminate].
      by apply Permutation_nil_l in Hp.
    + intros Hn. rewrite Hn. reflexivity.
  - rewrite lookup_insert_eq. eexists. split; [reflexivity|]. done.
Qed.

Lemma endGame_ranks_witness :
  exists ranked,
    (Game.endGame "r1" (games (Scenario.after Scenario.guessed))).1
    = Some (mkGameResult (head ranked) (map Game.scoreEntry ranked))
    /\ ranked
       ≡ₚ [ mkPlayer "d" "Dan" 25 false; mkPlayer "a" "Ann" 125 true;
            mkPlayer "b" "Bob" 0 false ]
    /\ descending ranked.
Proof.
  destruct (endGame_ranks "r1" (games (Scenario.after Scenario.guessed))
              (mkGame "r1" 3 1 60 true true (Some "d") (Some "apple")
                 ["apple"; "banana"; "cat"]
                 [ mkPlayer "d" "Dan" 25 false; mkPlayer "a" "Ann" 125 true;
                   mkPlayer "b" "Bob" 0 false ]
                 ["a"] (Some 10000) ["apple"] (mkSettings None None)))
    as (ranked & H1 & H2 & H3 & _).
  - vm_compute. reflexivity.
  - exists ranked. split; [exact H1|]. split; [exact H2 | exact H3].
Defined.

(** * Starting a game and a round *)

(** X14. [startGame] refuses a game that is running and leaves it as it
    is; otherwise it activates the game at round 0 with no used word and
    puts every player back to score 0 and not guessed, the players and their
    order being kept, and the configuration too. *)
Theorem startGame_resets rid (games : gmap string GameState) g :
  games !! rid = Some g ->
  if isActive g then Game.startGame rid games = (false, games)
  else
    exists g',
      Game.startGame rid games = (true, <[rid := g']> games)
      /\ isActive g' = true /\ currentRound g' = 0 /\ usedWords g' = []
      /\ map player_id (players g') = map player_id (players g)
      /\ Forall (fun p => score p = 0 /\ hasGuessed p = false) (players g')
      /\ rounds g' = rounds g /\ drawTime g' = drawTime g.
Proof.
  intros Hg. unfold Game.startGame. rewrite Hg.
  destruct (isActive g); [reflexivity|].
  eexists. split; [reflexivity|]. simpl.
  repeat split.
  - rewrite List.map_map. reflexivity.
  - apply Forall_forall. intros p Hp. apply list_elem_of_In in Hp.
    apply in_map_iff in Hp.
    destruct Hp as (q & <- & _). by simpl.
Qed.

Lemma startGame_resets_witness :
  Game.startGame "r1" (games (Scenario.after Scenario.drawing))
  = (false, games (Scenario.after Scenario.drawing)).
Proof.
  apply (startGame_resets "r1" (games (Scenario.after Scenario.drawing))
           Scenario.drawingGame).
  vm_compute. reflexivity.
Defined.

(** X15. A round cannot start in a running game that has lost all its
    players: the drawer is [undefined] and reading its id throws, the round
    counter having been advanced already. *)
Theorem startRound_without_players_throws sh rid
  (games : gmap string GameState) g :
  games !! rid = Some g ->
  isActive g = true -> players g = [] ->
  currentRound g < rounds g ->
  exists what g',
    Game.startRound sh rid games = (Thrown what, <[rid := g']> games)
    /\ currentRound g' = currentRound g + 1
    /\ isActive g' = true.
Proof.
  intros Hg Ha Hp Hr. unfold Game.startRound. rewrite Hg, Ha. simpl.
  destruct (Z.ltb_spec (rounds g) (currentRound g + 1)); [lia|].
  unfold Game.drawerAt. simpl. rewrite Hp. simpl.
  eexists _, _. split; [reflexivity|]. by simpl.
Qed.

Lemma startRound_without_players_throws_witness :
  let abandoned :=
    (Scenario.solo ++
     [ (Scenario.envAt 3,
        SocketController.FromClient "d"
          (SocketController.StartGame "r1" None));
       (Scenario.envAt 4, SocketController.Disconnect "d") ])%list in
  exists what g',
    Game.startRound (fun l => l) "r1" (games (Scenario.after abandoned))
    = (Thrown what, <[ "r1" := g' ]> (games (Scenario.after abandoned)))
    /\ currentRound g' = 1 /\ isActive g' = true.
Proof.
  apply (startRound_without_players_throws (fun l => l) "r1"
           (games
              (Scenario.after
                 (Scenario.solo ++
                  [ (Scenario.envAt 3,
                     SocketController.FromClient "d"
                       (SocketController.StartGame "r1" None));
                    (Scenario.envAt 4, SocketController.Disconnect "d") ])))
           (mkGame "r1" 3 0 60 true false None None [] [] [] None []
              (mkSettings None None))).
  - vm_compute. reflexivity.
  - reflexivity.
  - reflexivity.
  - simpl. lia.
Defined.

(** * Drawing and choosing the word *)

(** X16. While a round is active only its drawer draws: a drawing event
    from any other socket changes nothing and reaches nobody. *)
Theorem guesser_drawing_dropped env sid rid dd w g :
  games w !! rid = Some g ->
  isRoundActive g = true ->
  currentDrawer g <> Some sid ->
  SocketController.handleDrawing env sid rid dd w = (Returned tt, w, []).
Proof.
  intros Hg Ha Hd. unfold SocketController.handleDrawing.
  destruct dd as [dd|]; [|reflexivity].
  destruct (negb (JsString.truthy rid)); [reflexivity|].
  unfold mbind, M_bind, readRooms, readGames, Game.getGame, Room.getRoom.
  simpl. destruct (rooms w !! rid); [|reflexivity]. simpl.
  rewrite Hg. unfold SocketController.guessing, Game.isDrawer. rewrite Ha.
  destruct (currentDrawer g) as [d|]; [|reflexivity].
  destruct (String.eqb_spec d sid); [congruence | reflexivity].
Qed.

Lemma guesser_drawing_dropped_witness :
  SocketController.handleDrawing (Scenario.envAt 11000) "a" "r1"
    (Some (mkDrawingData "draw" [(0, 0); (10, 10)] "#000000" 2))
    (Scenario.after Scenario.drawing)
  = (Returned tt, Scenario.after Scenario.drawing, []).
Proof.
  apply (guesser_drawing_dropped (Scenario.envAt 11000) "a" "r1"
           (Some (mkDrawingData "draw" [(0, 0); (10, 10)] "#000000" 2))
           (Scenario.after Scenario.drawing) Scenario.drawingGame).
  - vm_compute. reflexivity.
  - reflexivity.
  - discriminate.
Defined.

(** X17. A drawing event that is accepted (the room exists and the sender
    is not a guesser of an active round) is appended to the log of the room,
    stamped with the sender and the time, and relayed once, to the other
    sockets of the room: never back to the sender.  Games and the other
    rooms are untouched. *)
Theorem drawing_relayed env sid rid dd w room :
  JsString.truthy rid = true ->
  rooms w !! rid = Some room ->
  SocketController.guessing (games w !! rid) sid = false ->
  let r := SocketController.handleDrawing env sid rid (Some dd) w in
  let ev := mkDrawingEvent (dd_type dd) dd sid (now env) in
  Room.getDrawingData rid (rooms (worldOf r))
  = (room_drawingData room ++ [ev])%list
  /\ (forall k, k <> rid -> rooms (worldOf r) !! k = rooms w !! k)
  /\ games (worldOf r) = games w
  /\ exists receivers,
       effectsOf r = [Emit (ToOthers rid sid) (PDrawing dd sid) receivers]
       /\ ~ In sid receivers
       /\ forall s, In s receivers -> s ∈ members (adapter w) rid.
Proof.
  intros Ht Hr Hgu. unfold SocketController.handleDrawing. rewrite Ht.
  unfold mbind, M_bind, readRooms, readGames, liftRoom, emit, Game.getGame,
    Room.getRoom, Room.addDrawingData, Room.getDrawingData, worldOf,
    effectsOf.
  simpl. rewrite Hr. simpl. rewrite Hgu. simpl. rewrite Hr. simpl.
  rewrite lookup_insert_eq. simpl.
  split; [reflexivity|]. split.
  { intros k Hk. by rewrite lookup_insert_ne. }
  split; [reflexivity|].
  eexists. split; [reflexivity|]. split.
  - intros Hin. apply list_elem_of_In, elem_of_elements in Hin.
    set_solver.
  - intros s Hin. apply list_elem_of_In, elem_of_elements in Hin.
    set_solver.
Qed.

Lemma drawing_relayed_witness :
  Room.getDrawingData "r1"
    (rooms
       (worldOf
          (SocketController.handleDrawing (Scenario.envAt 11000) "d" "r1"
             (Some (mkDrawingData "draw" [(0, 0); (10, 10)] "#000000" 2))
             (Scenario.after Scenario.drawing))))
  = [ mkDrawingEvent "draw"
        (mkDrawingData "draw" [(0, 0); (10, 10)] "#000000" 2) "d" 11000 ].
Proof.
  apply (drawing_relayed (Scenario.envAt 11000) "d" "r1"
           (mkDrawingData "draw" [(0, 0); (10, 10)] "#000000" 2)
           (Scenario.after Scenario.drawing)
           (mkRoom "r1" "Room" [Scenario.dan; Scenario.ann; Scenario.bob]
              [] 0)).
  - reflexivity.
  - vm_compute. reflexivity.
  - vm_compute. reflexivity.
Defined.

(** X18. [select-word] is ignored unless it comes from the current drawer
    and names one of the words on offer: otherwise nothing changes and
    nothing is sent. *)
Theorem select_word_ignored env sid rid word w g :
  games w !! rid = Some g ->
  Game.isDrawer g sid = false
  \/ Game.includes word (wordOptions g) = false ->
  SocketController.handleSelectWord env sid rid word w
  = (Returned tt, w, []).
Proof.
  intros Hg Hor. unfold SocketController.handleSelectWord.
  destruct (_ || _); [reflexivity|].
  unfold mbind, M_bind, readGames, liftGame, Game.getGame, Game.selectWord.
  simpl. rewrite Hg. simpl.
  destruct (Game.isDrawer g sid); simpl; [|reflexivity].
  destruct Hor as [Hd|Hi]; [discriminate|].
  rewrite Hg, Hi. simpl. by destruct w.
Qed.

Lemma select_word_ignored_witness :
  SocketController.handleSelectWord (Scenario.envAt 9000) "a" "r1" "apple"
    (Scenario.after Scenario.waiting)
  = (Returned tt, Scenario.after Scenario.waiting, []).
Proof.
  apply (select_word_ignored (Scenario.envAt 9000) "a" "r1" "apple"
           (Scenario.after Scenario.waiting) Scenario.waitingGame).
  - vm_compute. reflexivity.
  - left. reflexivity.
Defined.

(** X19. When the drawer picks a word on offer, the word itself is sent to
    the drawer's socket only; the other sockets of the room get the mask and
    the length, and the round timer is set to the draw time of the game, in
    milliseconds. *)
Theorem selected_word_stays_with_drawer env sid rid word w g :
  JsString.truthy rid = true -> JsString.truthy word = true ->
  games w !! rid = Some g ->
  Game.isDrawer g sid = true ->
  Game.includes word (wordOptions g) = true ->
  effectsOf (SocketController.handleSelectWord env sid rid word w)
  = [ Emit (ToSocket sid) (PWordSelected word)
        (recipients (adapter w) (ToSocket sid));
      Emit (ToOthers rid sid)
        (PWordSelectedMasked (Game.getMaskedWord word)
           (Z.of_nat (String.length word)))
        (recipients (adapter w) (ToOthers rid sid));
      SetTimeout (TEndRoundIfActive sid rid) (drawTime g * 1000) ]
  /\ (forall s, In s (recipients (adapter w) (ToSocket sid)) -> s = sid)
  /\ ~ In sid (recipients (adapter w) (ToOthers rid sid)).
Proof.
  intros Ht Hw Hg Hd Hi. unfold SocketController.handleSelectWord.
  rewrite Ht, Hw. simpl.
  unfold mbind, M_bind, readGames, liftGame, emit, setTimeout,
    Game.getGame, Game.selectWord, effectsOf.
  simpl. rewrite Hg. simpl. rewrite Hd. simpl. rewrite Hg, Hi. simpl.
  rewrite lookup_insert_eq. simpl.
  split; [reflexivity|]. split.
  - intros s. destruct (decide _); simpl; [|done]. by intros [<-|[]].
  - intros Hin. apply list_elem_of_In, elem_of_elements in Hin. set_solver.
Qed.

Lemma selected_word_stays_with_drawer_witness :
  effectsOf
    (SocketController.handleSelectWord (Scenario.envAt 10000) "d" "r1"
       "apple" (Scenario.after Scenario.waiting))
  = [ Emit (ToSocket "d") (PWordSelected "apple") ["d"];
      Emit (ToOthers "r1" "d") (PWordSelectedMasked "_ _ _ _ _" 5)
        (recipients (adapter (Scenario.after Scenario.waiting))
           (ToOthers "r1" "d"));
      SetTimeout (TEndRoundIfActive "d" "r1") 60000 ].
Proof.
  apply (selected_word_stays_with_drawer (Scenario.envAt 10000) "d" "r1"
           "apple" (Scenario.after Scenario.waiting) Scenario.waitingGame).
  - reflexivity.
  - reflexivity.
  - vm_compute. reflexivity.
  - reflexivity.
  - reflexivity.
Defined.

(** * Witnesses of the general statements *)

Lemma games_never_deleted_witness :
  is_Some
    (games
       (worldOf
          (SocketController.run
             [ (Scenario.envAt 4, SocketController.Disconnect "d") ]
             (Scenario.after Scenario.solo))) !! "r1").
Proof.
  apply (games_never_deleted
           [ (Scenario.envAt 4, SocketController.Disconnect "d") ]
           (Scenario.after Scenario.solo) "r1").
  vm_compute. eexists. reflexivity.
Defined.

Lemma handleRequestHint_ignored_witness :
  SocketController.handleRequestHint (Scenario.envAt 9000) "a" "r1"
    (Scenario.after Scenario.waiting)
  = (Returned tt, Scenario.after Scenario.waiting, []).
Proof.
  apply (handleRequestHint_ignored (Scenario.envAt 9000) "a" "r1"
           (Scenario.after Scenario.waiting)).
  intros g Hg. vm_compute in Hg. injection Hg as <-. reflexivity.
Defined.

